(** * ReAct agent strategy: dispatcher and reasoning loop

    A shallow embedding of [strategies/ReAct.py]: the action dispatcher
    [_handle_invoke_action] and the bounded reasoning loop of [_invoke],
    together with the fragment of the Python runtime both rely on
    (JSON values, [json.dumps], [str.lower], [str.strip], exceptions).

    Python strings are byte strings holding the UTF-8 encoding of the
    text.  Dictionaries that are rendered or merged keep their insertion
    order and are association lists; the two tool registries are only
    ever looked up by name and are finite maps. *)

From Stdlib Require Import ZArith QArith Ascii String.
From stdpp Require Import base option list strings gmap pretty.

Set Warnings "-register-all".
Open Scope string_scope.
Open Scope Z_scope.

(** ** Python values *)

Module Py.

(** The values [json.loads] produces and [json.dumps] accepts.  A float
    is carried by its literal ([repr]), which is what [json.dumps]
    prints for it; no arithmetic is done on floats here. *)
Inductive pyval :=
| PNone
| PBool (b : bool)
| PInt (z : Z)
| PFloat (lit : string)
| PStr (s : string)
| PList (l : list pyval)
| PDict (d : list (string * pyval)).

Abbreviation pydict := (list (string * pyval)).

(** [type(v).__name__] *)
Definition type_name (v : pyval) : string :=
  match v with
  | PNone => "NoneType"
  | PBool _ => "bool"
  | PInt _ => "int"
  | PFloat _ => "float"
  | PStr _ => "str"
  | PList _ => "list"
  | PDict _ => "dict"
  end.

(** Exceptions, all below [Exception]; [exn_str] is [str(e)]. *)
Inductive exn :=
| ValueError (msg : string)
| TypeError (msg : string)
| KeyError (key : string)
| AttributeError (msg : string)
| RuntimeError (msg : string).

Definition exn_str (e : exn) : string :=
  match e with
  | ValueError m | TypeError m | AttributeError m | RuntimeError m => m
  | KeyError k => "'" ++ k ++ "'"
  end.

Definition result (A : Type) : Type := exn + A.

(** *** Dictionaries *)

(** [d.get(k)] *)
Fixpoint dict_get (d : pydict) (k : string) : option pyval :=
  match d with
  | [] => None
  | (k', v) :: d' => if String.eqb k' k then Some v else dict_get d' k
  end.

(** [d[k]] *)
Definition dict_getitem (d : pydict) (k : string) : result pyval :=
  match dict_get d k with
  | Some v => inr v
  | None => inl (KeyError k)
  end.

(** [d[k] = v]: an existing key keeps its position, a new one goes last. *)
Fixpoint dict_set (d : pydict) (k : string) (v : pyval) : pydict :=
  match d with
  | [] => [(k, v)]
  | (k', v') :: d' =>
      if String.eqb k' k then (k', v) :: d' else (k', v') :: dict_set d' k v
  end.

(** [{**a, **b}] for two dictionaries *)
Definition dict_merge (a b : pydict) : pydict :=
  foldl (fun acc kv => dict_set acc kv.1 kv.2) a b.

(** [{**a, **v}] where [v] is any value: unpacking needs a mapping. *)
Definition dict_unpack_merge (a : pydict) (v : pyval) : result pydict :=
  match v with
  | PDict b => inr (dict_merge a b)
  | _ => inl (TypeError ("'" ++ type_name v ++ "' object is not a mapping"))
  end.

(** [v == s] for a string literal [s] *)
Definition eq_str (v : pyval) (s : string) : bool :=
  match v with
  | PStr t => String.eqb t s
  | _ => false
  end.

(** Truth value of a dictionary: empty is false. *)
Definition dict_truthy (d : pydict) : bool :=
  match d with [] => false | _ => true end.

(** *** Bytes *)

Local Open Scope N_scope.

Definition byte (c : ascii) : N := N_of_ascii c.

Definition bytes (l : list N) : string :=
  string_of_list_ascii (map ascii_of_N l).

(** *** str.lower *)

(** On the UTF-8 bytes only the ASCII capitals change.  [str.lower]
    also maps capitals outside ASCII, but to text that again lies
    outside ASCII or, for U+212A, to the letter k; so comparing the
    outcome with the literal "final answer" gives the same verdict. *)
Definition lower_ascii (c : ascii) : ascii :=
  if (65 <=? byte c) && (byte c <=? 90) then ascii_of_N (byte c + 32) else c.

Fixpoint lower (s : string) : string :=
  match s with
  | EmptyString => EmptyString
  | String c s' => String (lower_ascii c) (lower s')
  end.

(** *** str.strip *)

(** The characters [str.isspace] accepts, as UTF-8: U+0009..000D,
    U+001C..0020, U+0085, U+00A0, U+1680, U+2000..200A, U+2028, U+2029,
    U+202F, U+205F, U+3000. *)
Definition whitespace : list string :=
  map (fun n => bytes [n]) [9; 10; 11; 12; 13; 28; 29; 30; 31; 32]
  ++ [bytes [194; 133]; bytes [194; 160]; bytes [225; 154; 128]]
  ++ map (fun n => bytes [226; 128; n])
       [128; 129; 130; 131; 132; 133; 134; 135; 136; 137; 138]
  ++ [bytes [226; 128; 168]; bytes [226; 128; 169]; bytes [226; 128; 175];
      bytes [226; 129; 159]; bytes [227; 128; 128]].

Fixpoint strip_prefix (p s : string) : option string :=
  match p, s with
  | EmptyString, _ => Some s
  | String a p', String b s' =>
      if Ascii.eqb a b then strip_prefix p' s' else None
  | String _ _, EmptyString => None
  end.

(** Removes one leading member of [ws], if there is one. *)
Fixpoint drop_one (ws : list string) (s : string) : option string :=
  match ws with
  | [] => None
  | w :: ws' =>
      match strip_prefix w s with
      | Some s' => Some s'
      | None => drop_one ws' s
      end
  end.

Fixpoint lstrip_with (ws : list string) (fuel : nat) (s : string) : string :=
  match fuel with
  | O => s
  | S k =>
      match drop_one ws s with
      | Some s' => lstrip_with ws k s'
      | None => s
      end
  end.

Definition string_rev (s : string) : string :=
  string_of_list_ascii (rev (list_ascii_of_string s)).

Definition lstrip (s : string) : string :=
  lstrip_with whitespace (String.length s) s.

Definition rstrip (s : string) : string :=
  string_rev (lstrip_with (map string_rev whitespace) (String.length s)
                (string_rev s)).

Definition strip (s : string) : string := rstrip (lstrip s).

(** [s.strip(chars)] for a single character *)
Definition strip_char (c : N) (s : string) : string :=
  let ws := [bytes [c]] in
  let s1 := lstrip_with ws (String.length s) s in
  string_rev (lstrip_with ws (String.length s1) (string_rev s1)).

(** *** json.dumps *)

Definition hex_digit (n : N) : ascii :=
  ascii_of_N (if n <? 10 then 48 + n else 87 + n).

(** A backslash, the letter u and four lower-case hexadecimal digits *)
Definition u_escape (n : N) : string :=
  bytes [92; 117] ++
    (String (hex_digit (n / 4096 mod 16))
    (String (hex_digit (n / 256 mod 16))
    (String (hex_digit (n / 16 mod 16))
    (String (hex_digit (n mod 16)) EmptyString)))).

(** A code point as [ensure_ascii=True] writes it: one escape in the
    basic plane, a surrogate pair above it. *)
Definition u_escape_cp (cp : N) : string :=
  if cp <? 65536 then u_escape cp
  else
    let v := cp - 65536 in
    u_escape (55296 + v / 1024) ++ u_escape (56320 + v mod 1024).

(** The escapes shared by both modes: quote, backslash and the control
    characters below U+0020. *)
Definition escape_low (c : ascii) : option string :=
  let n := byte c in
  if n =? 34 then Some (bytes [92; 34])
  else if n =? 92 then Some (bytes [92; 92])
  else if n =? 10 then Some (bytes [92; 110])
  else if n =? 13 then Some (bytes [92; 114])
  else if n =? 9 then Some (bytes [92; 116])
  else if n =? 8 then Some (bytes [92; 98])
  else if n =? 12 then Some (bytes [92; 102])
  else if n <? 32 then Some (u_escape n)
  else None.

(** The six payload bits of a continuation byte *)
Definition cont (c : ascii) : N := byte c mod 64.

(** The text between the quotes.  With [ensure_ascii] every character
    outside U+0020..U+007E is escaped, which needs the code point of
    each multi-byte sequence; without it those bytes pass through. *)
Fixpoint escape_body (ensure_ascii : bool) (s : string) : string :=
  match s with
  | EmptyString => EmptyString
  | String c0 s0 =>
      let n0 := byte c0 in
      match escape_low c0 with
      | Some e => e ++ escape_body ensure_ascii s0
      | None =>
          if negb ensure_ascii || (n0 <? 127)
          then String c0 (escape_body ensure_ascii s0)
          else if n0 =? 127
          then u_escape 127 ++ escape_body ensure_ascii s0
          else
            match s0 with
            | String c1 s1 =>
                if n0 <? 224 then
                  u_escape_cp (n0 mod 32 * 64 + cont c1)
                  ++ escape_body ensure_ascii s1
                else
                  match s1 with
                  | String c2 s2 =>
                      if n0 <? 240 then
                        u_escape_cp (n0 mod 16 * 4096 + cont c1 * 64 + cont c2)
                        ++ escape_body ensure_ascii s2
                      else
                        match s2 with
                        | String c3 s3 =>
                            u_escape_cp (n0 mod 8 * 262144 + cont c1 * 4096
                                         + cont c2 * 64 + cont c3)
                            ++ escape_body ensure_ascii s3
                        | EmptyString => s
                        end
                  | EmptyString => s
                  end
            | EmptyString => s
            end
      end
  end.

Definition quote (ensure_ascii : bool) (s : string) : string :=
  bytes [34] ++ escape_body ensure_ascii s ++ bytes [34].

Fixpoint join (sep : string) (l : list string) : string :=
  match l with
  | [] => EmptyString
  | [x] => x
  | x :: l' => x ++ sep ++ join sep l'
  end.

(** [json.dumps(v, ensure_ascii=...)] with the default separators. *)
Fixpoint json_dumps (ensure_ascii : bool) (v : pyval) : string :=
  match v with
  | PNone => "null"
  | PBool true => "true"
  | PBool false => "false"
  | PInt z => pretty z
  | PFloat lit => lit
  | PStr s => quote ensure_ascii s
  | PList l =>
      "[" ++ join ", " (map (json_dumps ensure_ascii) l) ++ "]"
  | PDict d =>
      "{" ++ join ", "
               (map (fun kv => quote ensure_ascii kv.1 ++ ": "
                               ++ json_dumps ensure_ascii kv.2) d)
      ++ "}"
  end.

End Py.

Import Py.

(** ** Entities of the plugin SDK *)

Inductive ToolParameterForm := SCHEMA | FORM | LLM.

#[global] Instance ToolParameterForm_eq_dec : EqDecision ToolParameterForm.
Proof. solve_decision. Defined.

Record ToolParameter := {
  param_name : string;
  param_form : ToolParameterForm;
}.

Record ToolIdentity := {
  identity_name : string;
  identity_provider : string;
}.

Record ToolEntity := {
  identity : ToolIdentity;
  parameters : list ToolParameter;
  runtime_parameters : pydict;
  provider_type : string;
}.

(** [action_input: Union[dict, str]] *)
Inductive ActionInput :=
| InputStr (s : string)
| InputDict (d : pydict).

Definition input_value (i : ActionInput) : pyval :=
  match i with
  | InputStr s => PStr s
  | InputDict d => PDict d
  end.

Record Action := {
  action_name : string;
  action_input : ActionInput;
}.

(** The messages a local tool yields, by [response.type].  [OTHER]
    stands for every remaining type and carries [repr(response.message)]. *)
Inductive ToolInvokeMessage :=
| TEXT (text : string)
| LINK (text : string)
| IMAGE_LINK
| IMAGE
| JSON (json_object : pyval)
| OTHER (message_repr : string).

(** A live [McpClients] object; what it does lives in the world. *)
Inductive McpClients := McpClientsHandle.

(** ** Effects

    Calls to the collaborators change a world [W] and return or raise. *)

Definition M (W A : Type) : Type := W -> W * result A.

Section Monad.
Context {W : Type}.

Definition ret {A} (a : A) : M W A := fun w => (w, inr a).

Definition raise {A} (e : exn) : M W A := fun w => (w, inl e).

Definition bind {A B} (m : M W A) (k : A -> M W B) : M W B :=
  fun w =>
    match m w with
    | (w', inr a) => k a w'
    | (w', inl e) => (w', inl e)
    end.

(** [try: m except Exception as e: ...], with the outcome as a value *)
Definition attempt {A} (m : M W A) : M W (result A) :=
  fun w => let '(w', r) := m w in (w', inr r).

Definition lift {A} (r : result A) : M W A := fun w => (w, r).
End Monad.

#[global] Instance M_ret {W} : MRet (M W) := @ret W.
#[global] Instance M_bind {W} : MBind (M W) := fun A B k m => bind m k.

(** [json.loads] is taken as given: the decoded value, or the message
    of the [JSONDecodeError]. *)
Class JsonDecoder := {
  json_loads : string -> string + pyval;
}.

(** The two backends the dispatcher calls. *)
Class ToolBackends (W : Type) := {
  (** [self.session.tool.invoke(provider_type, provider, tool_name,
      parameters)], drained *)
  tool_invoke : string -> string -> string -> pydict ->
                M W (list ToolInvokeMessage);
  (** [mcp_clients.execute_tool(tool_name, tool_args)] *)
  execute_tool : string -> pyval -> M W (list pydict);
}.

(** ** The action dispatcher *)

Section Dispatcher.
Context {W : Type} `{JsonDecoder} `{ToolBackends W}.

(** Truth value of [tool_instances.get(name)] and of
    [mcp_tool_instances.get(name)] *)
Definition tool_truthy (t : option ToolEntity) : bool :=
  match t with Some _ => true | None => false end.

Definition mcp_truthy (t : option pydict) : bool :=
  match t with Some d => dict_truthy d | None => false end.

(** The names of the parameters the model fills in *)
Definition llm_params (t : ToolEntity) : list string :=
  map param_name (filter (fun param => param_form param = LLM) (parameters t)).

(** Lines 495-506: a text input is decoded; when that fails the text
    becomes the single parameter of the local tool. *)
Definition coerce_args (tool_instance : option ToolEntity)
    (tool_call_args : ActionInput) : result pyval :=
  match tool_call_args with
  | InputDict d => inr (PDict d)
  | InputStr s =>
      match json_loads s with
      | inr v => inr v
      | inl _ =>
          match tool_instance with
          | None =>
              inl (AttributeError
                     "'NoneType' object has no attribute 'parameters'")
          | Some t =>
              let params := llm_params t in
              if (1 <? length params)%nat
              then inl (ValueError "tool call args is not a valid json string")
              else
                inr (match params with
                     | [p] => PDict [(p, PStr s)]
                     | _ => PDict []
                     end)
          end
      end
  end.

(** Lines 517-528: one observation from the content items. *)
Definition mcp_result (content : list pydict) : result pyval :=
  match content with
  | [item] =>
      match dict_getitem item "type" with
      | inl e => inl e
      | inr ty =>
          if eq_str ty "text" then dict_getitem item "text"
          else if eq_str ty "image" || eq_str ty "video"
          then inr (PStr (json_dumps false (PDict item)))
          else if eq_str ty "resource" then
            match dict_getitem item "resource" with
            | inl e => inl e
            | inr r => inr (PStr (json_dumps false r))
            end
          else inr (PStr (json_dumps false (PDict item)))
      end
  | _ => inr (PStr (json_dumps false (PList (map PDict content))))
  end.

(** Lines 538-564: the text one response adds to the result. *)
Definition render_response (r : ToolInvokeMessage) : string :=
  match r with
  | TEXT text => text
  | LINK text =>
      "result link: " ++ text ++ "." ++ " please tell user to check it."
  | IMAGE_LINK | IMAGE =>
      "image has been created and sent to user already, "
      ++ "you do not need to create it, just tell the user to check it now."
  | JSON o => "tool response: " ++ json_dumps false o ++ "."
  | OTHER r => "tool response: " ++ r ++ "."
  end.

Definition render_responses (rs : list ToolInvokeMessage) : string :=
  foldl (fun result r => result ++ render_response r) EmptyString rs.

(** Line 566 *)
Definition invoke_error (e : exn) : pyval :=
  PStr ("tool invoke error: " ++ exn_str e).

Definition observe (r : result pyval) : pyval :=
  match r with
  | inr v => v
  | inl e => invoke_error e
  end.

(** Lines 510-564: the body of the [try] *)
Definition execute (mcp_clients : option McpClients)
    (tool_instance : option ToolEntity) (mcp_tool_instance : option pydict)
    (tool_call_name : string) (tool_call_args : pyval) : M W pyval :=
  if mcp_truthy mcp_tool_instance then
    content ← match mcp_clients with
              | Some _ => execute_tool tool_call_name tool_call_args
              | None =>
                  raise (AttributeError
                    "'NoneType' object has no attribute 'execute_tool'")
              end;
    lift (mcp_result content)
  else
    match tool_instance with
    | None =>
        raise (AttributeError
                 "'NoneType' object has no attribute 'runtime_parameters'")
    | Some t =>
        tool_invoke_parameters ←
          lift (dict_unpack_merge (runtime_parameters t) tool_call_args);
        tool_invoke_responses ←
          tool_invoke (provider_type t) (identity_provider (identity t))
            (identity_name (identity t)) tool_invoke_parameters;
        mret (PStr (render_responses tool_invoke_responses))
    end.

(** [tool_invoke_parameters] at line 568: the empty dictionary of
    line 508 unless line 512 or line 531 assigned it. *)
Definition invoke_parameters (tool_instance : option ToolEntity)
    (mcp_tool_instance : option pydict) (tool_call_args : pyval) : pyval :=
  if mcp_truthy mcp_tool_instance then tool_call_args
  else
    match tool_instance with
    | Some t =>
        match dict_unpack_merge (runtime_parameters t) tool_call_args with
        | inr d => PDict d
        | inl _ => PDict []
        end
    | None => PDict []
    end.

Definition _handle_invoke_action (action : Action)
    (mcp_clients : option McpClients)
    (tool_instances : gmap string ToolEntity)
    (mcp_tool_instances : gmap string pydict)
    : M W (pyval * pyval) :=
  let tool_call_name := action_name action in
  let tool_call_args := action_input action in
  let tool_instance := tool_instances !! tool_call_name in
  let mcp_tool_instance := mcp_tool_instances !! tool_call_name in
  if negb (tool_truthy tool_instance) && negb (mcp_truthy mcp_tool_instance)
  then
    let answer := "there is not a tool named " ++ tool_call_name in
    mret (PStr answer, input_value tool_call_args)
  else
    tool_call_args ← lift (coerce_args tool_instance tool_call_args);
    result ← attempt (execute mcp_clients tool_instance mcp_tool_instance
                        tool_call_name tool_call_args);
    mret (observe result,
          invoke_parameters tool_instance mcp_tool_instance tool_call_args).

End Dispatcher.

(** ** The reasoning loop: data *)

Record LLMUsage := {
  total_price : Q;
  currency : string;
  total_tokens : Z;
}.

Record PromptMessage := {
  role : string;
  content : string;
}.

Record PromptMessageTool := {
  tool_name : string;
  tool_description : pyval;
  tool_parameters : pyval;
}.

(** [stop_sequences] is [completion_params.get("stop", [])]. *)
Record AgentModelConfig := {
  provider : string;
  model_name : string;
  stop_sequences : list string;
  history_prompt_messages : list PromptMessage;
}.

Record ReActParams := {
  query : string;
  instruction : string;
  model : AgentModelConfig;
  tools : option (list ToolEntity);
  mcp_servers_config : option string;
  mcp_resources_as_tools : bool;
  mcp_prompts_as_tools : bool;
  maximum_iterations : Z;
}.

(** [agent_response] and [observation] are text until line 329 stores
    what the dispatcher returned, which for a remote text item is the
    item's own value. *)
Record AgentScratchpadUnit := {
  agent_response : pyval;
  thought : string;
  action_str : string;
  observation : pyval;
  action : option Action;
}.

(** What the output parser hands to the loop *)
Inductive Chunk :=
| ChunkText (s : string)
| ChunkAction (a : Action).

(** One model call as the loop sees it: the parsed chunks, the error
    that ends the stream early if there is one, and the [usage] slot of
    [usage_dict] (absent, [None], or a usage). *)
Record LLMStream := {
  react_chunks : list Chunk;
  stream_error : option exn;
  usage_slot : option (option LLMUsage);
}.

(** All that prompt assembly reads; the model call is a function of it. *)
Record PromptInputs := {
  prompt_instruction : string;
  prompt_tools : list PromptMessageTool;
  prompt_history : list PromptMessage;
  prompt_query : string;
  prompt_scratchpad : list AgentScratchpadUnit;
}.

(** Log metadata; the wall-clock entries are left out. *)
Inductive LogMetadata := PROVIDER | TOTAL_PRICE | CURRENCY | TOTAL_TOKENS.

Inductive MetaValue :=
| MStr (s : string)
| MInt (z : Z)
| MDecimal (q : Q).

Abbreviation metadata := (list (LogMetadata * MetaValue)).

Inductive AgentInvokeMessage :=
| LogStart (label : string) (parent : option string) (meta : metadata)
| LogFinish (label : string) (data : pydict) (meta : metadata)
| TextMessage (text : string)
| JsonMessage (execution_metadata : metadata).

(** Helpers the strategy inherits from the SDK *)
Class AgentSDK := {
  (** [Action.model_dump()] and [Action.to_dict()] *)
  model_dump : Action -> pyval;
  to_dict : Action -> pydict;
  (** [PromptMessageTool(name=..., description=..., parameters=...)],
      which validates its fields *)
  PromptMessageTool_new : pyval -> pyval -> pyval -> result PromptMessageTool;
  _init_prompt_tools : option (list ToolEntity) -> list PromptMessageTool;
  (** [update_prompt_message_tool(tool, prompt_tool)] rewrites the entry
      in place and may raise while it does: the entry as the call leaves
      it, and the exception that left the call, if one did *)
  update_prompt_message_tool :
    ToolEntity -> PromptMessageTool -> PromptMessageTool * option exn;
  (** [increase_usage(llm_usage, usage)], as the new [llm_usage["usage"]] *)
  increase_usage : option LLMUsage -> LLMUsage -> option LLMUsage;
  empty_usage : LLMUsage;
}.

(** The model and the life cycle of the remote client *)
Class AgentRuntime (W : Type) := {
  (** [self.session.model.llm.invoke] followed by
      [CotAgentOutputParser.handle_react_stream_output] *)
  llm_invoke : AgentModelConfig -> PromptInputs -> list string ->
               M W LLMStream;
  (** [McpClients(servers_config, resources_as_tools, prompts_as_tools)] *)
  McpClients_new : pyval -> bool -> bool -> M W McpClients;
  fetch_tools : M W (list pydict);
  close : M W unit;
}.

(** Instrumentation: what each round passed to prompt assembly and
    which actions reached the dispatcher. *)
Inductive TraceEvent :=
| PromptAssembled (step : Z) (catalogue : list PromptMessageTool)
| ToolDispatched (step : Z) (a : Action).

(** The catalogues the rounds assembled their prompts with, and the
    actions that reached the dispatcher, each with its round *)
Definition prompts (tr : list TraceEvent) : list (Z * list PromptMessageTool) :=
  omap (fun ev => match ev with
                  | PromptAssembled k c => Some (k, c)
                  | ToolDispatched _ _ => None
                  end) tr.

Definition dispatched (tr : list TraceEvent) : list (Z * Action) :=
  omap (fun ev => match ev with
                  | ToolDispatched k a => Some (k, a)
                  | PromptAssembled _ _ => None
                  end) tr.

(** The rounds a trace has seen: one per assembled prompt *)
Definition rounds (tr : list TraceEvent) : nat := length (prompts tr).

(** The local variables of [_invoke] that the loop changes, the
    messages yielded so far and the trace. *)
Record LoopState := {
  agent_scratchpad : list AgentScratchpadUnit;
  iteration_step : Z;
  run_agent_state : bool;
  llm_usage : option LLMUsage;
  final_answer : string;
  _prompt_messages_tools : list PromptMessageTool;
  yielded : list AgentInvokeMessage;
  trace : list TraceEvent;
}.

Inductive Outcome :=
| Finished
| Raised (e : exn)
| OutOfFuel.

(** What [_invoke] fixes before the loop starts *)
Record Setup := {
  tool_instances : gmap string ToolEntity;
  mcp_clients : option McpClients;
  mcp_tool_instances : gmap string pydict;
  stop : list string;
}.

(** ** The reasoning loop: code *)

Section Loop.
Context {W : Type}.
Context `{JsonDecoder} `{ToolBackends W} `{AgentSDK} `{AgentRuntime W}.

Definition yield (m : AgentInvokeMessage) (st : LoopState) : LoopState :=
  {| agent_scratchpad := agent_scratchpad st;
     iteration_step := iteration_step st;
     run_agent_state := run_agent_state st;
     llm_usage := llm_usage st;
     final_answer := final_answer st;
     _prompt_messages_tools := _prompt_messages_tools st;
     yielded := yielded st ++ [m];
     trace := trace st |}.

Definition record (t : TraceEvent) (st : LoopState) : LoopState :=
  {| agent_scratchpad := agent_scratchpad st;
     iteration_step := iteration_step st;
     run_agent_state := run_agent_state st;
     llm_usage := llm_usage st;
     final_answer := final_answer st;
     _prompt_messages_tools := _prompt_messages_tools st;
     yielded := yielded st;
     trace := trace st ++ [t] |}.

Definition set_run_agent_state (b : bool) (st : LoopState) : LoopState :=
  {| agent_scratchpad := agent_scratchpad st;
     iteration_step := iteration_step st;
     run_agent_state := b;
     llm_usage := llm_usage st;
     final_answer := final_answer st;
     _prompt_messages_tools := _prompt_messages_tools st;
     yielded := yielded st;
     trace := trace st |}.

Definition set_prompt_messages_tools (l : list PromptMessageTool)
    (st : LoopState) : LoopState :=
  {| agent_scratchpad := agent_scratchpad st;
     iteration_step := iteration_step st;
     run_agent_state := run_agent_state st;
     llm_usage := llm_usage st;
     final_answer := final_answer st;
     _prompt_messages_tools := l;
     yielded := yielded st;
     trace := trace st |}.

Definition set_final_answer (a : string) (st : LoopState) : LoopState :=
  {| agent_scratchpad := agent_scratchpad st;
     iteration_step := iteration_step st;
     run_agent_state := run_agent_state st;
     llm_usage := llm_usage st;
     final_answer := a;
     _prompt_messages_tools := _prompt_messages_tools st;
     yielded := yielded st;
     trace := trace st |}.

Definition set_llm_usage (u : option LLMUsage) (st : LoopState) : LoopState :=
  {| agent_scratchpad := agent_scratchpad st;
     iteration_step := iteration_step st;
     run_agent_state := run_agent_state st;
     llm_usage := u;
     final_answer := final_answer st;
     _prompt_messages_tools := _prompt_messages_tools st;
     yielded := yielded st;
     trace := trace st |}.

(** [agent_scratchpad.append(scratchpad)]; the unit of the running
    round stays the last one and is rewritten in place afterwards. *)
Definition append_unit (u : AgentScratchpadUnit) (st : LoopState)
    : LoopState :=
  {| agent_scratchpad := agent_scratchpad st ++ [u];
     iteration_step := iteration_step st;
     run_agent_state := run_agent_state st;
     llm_usage := llm_usage st;
     final_answer := final_answer st;
     _prompt_messages_tools := _prompt_messages_tools st;
     yielded := yielded st;
     trace := trace st |}.

Definition replace_last_unit (u : AgentScratchpadUnit) (st : LoopState)
    : LoopState :=
  {| agent_scratchpad := removelast (agent_scratchpad st) ++ [u];
     iteration_step := iteration_step st;
     run_agent_state := run_agent_state st;
     llm_usage := llm_usage st;
     final_answer := final_answer st;
     _prompt_messages_tools := _prompt_messages_tools st;
     yielded := yielded st;
     trace := trace st |}.

Definition next_step (st : LoopState) : LoopState :=
  {| agent_scratchpad := agent_scratchpad st;
     iteration_step := iteration_step st + 1;
     run_agent_state := run_agent_state st;
     llm_usage := llm_usage st;
     final_answer := final_answer st;
     _prompt_messages_tools := _prompt_messages_tools st;
     yielded := yielded st;
     trace := trace st |}.

(** [v or ""] for a text that may be [None] *)
Definition text_or_empty (v : pyval) : string :=
  match v with PStr s => s | _ => EmptyString end.

(** Lines 212-218 *)
Definition blank_unit : AgentScratchpadUnit :=
  {| agent_response := PStr EmptyString;
     thought := EmptyString;
     action_str := EmptyString;
     observation := PStr EmptyString;
     action := None |}.

(** Lines 234-246, one chunk *)
Definition absorb (scratchpad : AgentScratchpadUnit) (chunk : Chunk)
    : AgentScratchpadUnit :=
  match chunk with
  | ChunkAction a =>
      {| agent_response :=
           PStr (text_or_empty (agent_response scratchpad)
                 ++ json_dumps true (model_dump a));
         thought := thought scratchpad;
         action_str := json_dumps true (model_dump a);
         observation := observation scratchpad;
         action := Some a |}
  | ChunkText s =>
      {| agent_response :=
           PStr (text_or_empty (agent_response scratchpad) ++ s);
         thought := thought scratchpad ++ s;
         action_str := action_str scratchpad;
         observation := observation scratchpad;
         action := action scratchpad |}
  end.

(** Lines 247-251 *)
Definition settle_thought (scratchpad : AgentScratchpadUnit)
    : AgentScratchpadUnit :=
  {| agent_response := agent_response scratchpad;
     thought :=
       match thought scratchpad with
       | EmptyString => "I am thinking about how to help you"
       | t => strip t
       end;
     action_str := action_str scratchpad;
     observation := observation scratchpad;
     action := action scratchpad |}.

(** Lines 212-251: the unit of one round *)
Definition read_chunks (chunks : list Chunk) : AgentScratchpadUnit :=
  settle_thought (foldl absorb blank_unit chunks).

(** Lines 329-330 *)
Definition with_observation (tool_invoke_response : pyval)
    (scratchpad : AgentScratchpadUnit) : AgentScratchpadUnit :=
  {| agent_response := tool_invoke_response;
     thought := thought scratchpad;
     action_str := action_str scratchpad;
     observation := tool_invoke_response;
     action := action scratchpad |}.

(** Lines 255-259: the new running total and the usage the logs of
    this round report *)
Definition account (slot : option (option LLMUsage))
    (total : option LLMUsage) : option LLMUsage * option LLMUsage :=
  match slot with
  | Some (Some u) => (increase_usage total u, Some u)
  | Some None => (total, None)
  | None => (total, Some empty_usage)
  end.

Definition usage_metadata (u : option LLMUsage) : metadata :=
  match u with
  | Some u =>
      [(TOTAL_PRICE, MDecimal (total_price u));
       (CURRENCY, MStr (currency u));
       (TOTAL_TOKENS, MInt (total_tokens u))]
  | None =>
      [(TOTAL_PRICE, MInt 0);
       (CURRENCY, MStr EmptyString);
       (TOTAL_TOKENS, MInt 0)]
  end.

(** Lines 286-299: no action, or the reserved name *)
Definition is_final_answer (a : Action) : bool :=
  String.eqb (lower (action_name a)) "final answer".

Definition terminal (scratchpad : AgentScratchpadUnit) : bool :=
  match action scratchpad with
  | None => true
  | Some a => is_final_answer a
  end.

(** Lines 292-297; the input is a dictionary or a text, so the third
    branch is never taken. *)
Definition answer_of_input (i : ActionInput) : string :=
  match i with
  | InputDict d => json_dumps true (PDict d)
  | InputStr s => s
  end.

(** Lines 352-356.  The entries are visited in order; the first call
    that raises ends the walk, and the entries after it are left as they
    were.  The list as the walk leaves it comes back with the exception. *)
Fixpoint refresh_prompt_tools (tool_instances : gmap string ToolEntity)
    (l : list PromptMessageTool) : list PromptMessageTool * option exn :=
  match l with
  | [] => ([], None)
  | prompt_tool :: rest =>
      match tool_instances !! tool_name prompt_tool with
      | Some t =>
          match update_prompt_message_tool t prompt_tool with
          | (prompt_tool, Some e) => (prompt_tool :: rest, Some e)
          | (prompt_tool, None) =>
              (prompt_tool :: (refresh_prompt_tools tool_instances rest).1,
               (refresh_prompt_tools tool_instances rest).2)
          end
      | None =>
          (prompt_tool :: (refresh_prompt_tools tool_instances rest).1,
           (refresh_prompt_tools tool_instances rest).2)
      end
  end.

Definition round_label (st : LoopState) : string :=
  "ROUND " ++ pretty (iteration_step st).

Definition tool_provider (su : Setup) (name : string) : string :=
  match tool_instances su !! name with
  | Some t => identity_provider (identity t)
  | None => EmptyString
  end.

Definition prompt_inputs (p : ReActParams) (st : LoopState) : PromptInputs :=
  {| prompt_instruction := instruction p;
     prompt_tools := _prompt_messages_tools st;
     prompt_history := history_prompt_messages (model p);
     prompt_query := query p;
     prompt_scratchpad := agent_scratchpad st |}.

(** Lines 169-182 *)
Definition begin_round (p : ReActParams) (st : LoopState) : LoopState :=
  let st := set_run_agent_state false st in
  let st := yield (LogStart (round_label st) None []) st in
  if (iteration_step st =? maximum_iterations p)%Z
  then set_prompt_messages_tools [] st
  else st.

(** Lines 357-384 *)
Definition end_round (scratchpad : AgentScratchpadUnit)
    (usage : option LLMUsage) (st : LoopState) : LoopState :=
  let data :=
    [("action_name",
      match action scratchpad with
      | Some a => PStr (action_name a)
      | None => PStr EmptyString
      end);
     ("action_input",
      match action scratchpad with
      | Some a => input_value (action_input a)
      | None => PStr EmptyString
      end);
     ("thought", PStr (thought scratchpad));
     ("observation", observation scratchpad)] in
  next_step (yield (LogFinish (round_label st) data (usage_metadata usage)) st).

(** The state in which the prompt is assembled (line 187) *)
Definition assemble (p : ReActParams) (st : LoopState) : LoopState :=
  let st := begin_round p st in
  record (PromptAssembled (iteration_step st) (_prompt_messages_tools st)) st.

(** Lines 208-384: the rest of the round once the model call has
    returned.  The state comes back together with the exception that
    left the body, if there was one: from the stream, from the
    dispatcher, or from the refresh of the catalogue (lines 352-356),
    which runs after a final answer and after a tool call alike. *)
Definition react (p : ReActParams) (su : Setup) (st : LoopState)
    (stream : LLMStream) : W -> W * (LoopState * option exn) := fun w =>
  let model_label := model_name (model p) ++ " Thought" in
  let st :=
    yield (LogStart model_label (Some (round_label st))
             [(PROVIDER, MStr (provider (model p)))]) st in
  match stream_error stream with
  | Some e => (w, (st, Some e))
  | None =>
      let scratchpad := read_chunks (react_chunks stream) in
      let st := append_unit scratchpad st in
      let usage := (account (usage_slot stream) (llm_usage st)).2 in
      let st :=
        set_llm_usage (account (usage_slot stream) (llm_usage st)).1 st in
      let action_data :=
        match action scratchpad with
        | Some a => to_dict a
        | None => [("action", agent_response scratchpad)]
        end in
      let st :=
        yield (LogFinish model_label
                 (dict_merge [("thought", PStr (thought scratchpad))]
                    action_data)
                 ((PROVIDER, MStr (provider (model p)))
                  :: usage_metadata usage)) st in
      match action scratchpad with
      | None =>
          let st := set_final_answer (thought scratchpad) st in
          (w, (end_round scratchpad usage st, None))
      | Some a =>
          if is_final_answer a then
            let st :=
              set_final_answer (answer_of_input (action_input a)) st in
            match refresh_prompt_tools (tool_instances su)
                    (_prompt_messages_tools st) with
            | (l, Some e) => (w, (set_prompt_messages_tools l st, Some e))
            | (l, None) =>
                let st := set_prompt_messages_tools l st in
                (w, (end_round scratchpad usage st, None))
            end
          else
            let st := set_run_agent_state true st in
            let name := action_name a in
            let call_label := "CALL " ++ name in
            let call_meta := [(PROVIDER, MStr (tool_provider su name))] in
            let st :=
              yield (LogStart call_label (Some (round_label st)) call_meta)
                st in
            let st := record (ToolDispatched (iteration_step st) a) st in
            match _handle_invoke_action a (mcp_clients su)
                    (tool_instances su) (mcp_tool_instances su) w with
            | (w, inl e) => (w, (st, Some e))
            | (w, inr (tool_invoke_response, tool_invoke_parameters)) =>
                let scratchpad :=
                  with_observation tool_invoke_response scratchpad in
                let st := replace_last_unit scratchpad st in
                let st :=
                  yield (LogFinish call_label
                           [("tool_name", PStr name);
                            ("tool_call_args", tool_invoke_parameters);
                            ("output", tool_invoke_response)]
                           call_meta) st in
                match refresh_prompt_tools (tool_instances su)
                        (_prompt_messages_tools st) with
                | (l, Some e) =>
                    (w, (set_prompt_messages_tools l st, Some e))
                | (l, None) =>
                    let st := set_prompt_messages_tools l st in
                    (w, (end_round scratchpad usage st, None))
                end
            end
      end
  end.

(** Lines 169-384: one pass through the body of the loop *)
Definition round (p : ReActParams) (su : Setup) (st : LoopState)
    : W -> W * (LoopState * option exn) := fun w =>
  match llm_invoke (model p) (prompt_inputs p (assemble p st)) (stop su) w
  with
  | (w, inl e) => (w, (assemble p st, Some e))
  | (w, inr stream) => react p su (assemble p st) stream w
  end.

(** Line 167.  The body runs at most once per unit of fuel; [_invoke]
    supplies enough of it. *)
Fixpoint while_loop (fuel : nat) (p : ReActParams) (su : Setup)
    (st : LoopState) (w : W) : W * (LoopState * Outcome) :=
  if run_agent_state st && (iteration_step st <=? maximum_iterations p)%Z
  then
    match fuel with
    | O => (w, (st, OutOfFuel))
    | S fuel' =>
        match round p su st w with
        | (w', (st', Some e)) => (w', (st', Raised e))
        | (w', (st', None)) => while_loop fuel' p su st' w'
        end
    end
  else (w, (st, Finished)).

(** Lines 124-133 *)
Definition ignore_observation_providers : list string := ["wenxin"].

Definition init_stop (m : AgentModelConfig) : list string :=
  if bool_decide ("Observation" ∉ stop_sequences m)
     && bool_decide (provider m ∉ ignore_observation_providers)
  then stop_sequences m ++ ["Observation"]
  else stop_sequences m.

(** Line 140 *)
Definition index_tools (tools : option (list ToolEntity))
    : gmap string ToolEntity :=
  match tools with
  | Some l =>
      foldl (fun m tool => <[identity_name (identity tool) := tool]> m) ∅ l
  | None => ∅
  end.

(** Line 157.  A key that is a list or a dictionary cannot be hashed.
    A key that is no text (the [None] of a missing name, a number) is
    never equal to an action name and is left out of the map. *)
Definition index_mcp_tools (mcp_tools : list pydict)
    : result (gmap string pydict) :=
  foldl (fun acc tool =>
           match acc with
           | inl e => inl e
           | inr m =>
               match dict_get tool "name" with
               | Some (PStr n) => inr (<[n := tool]> m)
               | Some (PList _) => inl (TypeError "unhashable type: 'list'")
               | Some (PDict _) => inl (TypeError "unhashable type: 'dict'")
               | _ => inr m
               end
           end)
    (inr ∅) mcp_tools.

(** Lines 598-612 *)
Fixpoint _init_prompt_mcp_tools (mcp_tools : list pydict)
    : result (list PromptMessageTool) :=
  match mcp_tools with
  | [] => inr []
  | tool :: rest =>
      match PromptMessageTool_new
              (default PNone (dict_get tool "name"))
              (default (PStr EmptyString) (dict_get tool "description"))
              (default PNone (dict_get tool "inputSchema")) with
      | inl e => inl e
      | inr prompt_message =>
          match _init_prompt_mcp_tools rest with
          | inl e => inl e
          | inr l => inr (prompt_message :: l)
          end
      end
  end.

(** Lines 143-157: the remote client and its tools *)
Definition connect_mcp (p : ReActParams)
    : M W (option McpClients * list pydict * gmap string pydict) :=
  match mcp_servers_config p with
  | None | Some EmptyString => mret (None, [], ∅)
  | Some config =>
      match json_loads (strip_char 34 config) with
      | inl msg =>
          raise (ValueError
                   ("mcp_servers_config must be a valid JSON string: " ++ msg))
      | inr servers_config =>
          clients ← McpClients_new servers_config
                      (mcp_resources_as_tools p) (mcp_prompts_as_tools p);
          mcp_tools ← fetch_tools;
          instances ← lift (index_mcp_tools mcp_tools);
          mret (Some clients, mcp_tools, instances)
      end
  end.

(** Lines 111-165 *)
Definition setup (p : ReActParams) : M W (Setup * list PromptMessageTool) :=
  '(clients, mcp_tools, instances) ← connect_mcp p;
  mcp_prompt_tools ← lift (_init_prompt_mcp_tools mcp_tools);
  mret ({| tool_instances := index_tools (tools p);
           mcp_clients := clients;
           mcp_tool_instances := instances;
           stop := init_stop (model p) |},
        (_init_prompt_tools (tools p) ++ mcp_prompt_tools)%list).

(** Lines 114-120 *)
Definition initial_state (prompt_messages_tools : list PromptMessageTool)
    : LoopState :=
  {| agent_scratchpad := [];
     iteration_step := 1;
     run_agent_state := true;
     llm_usage := None;
     final_answer := EmptyString;
     _prompt_messages_tools := prompt_messages_tools;
     yielded := [];
     trace := [] |}.

(** Lines 387-388 *)
Definition close_clients (su : Setup) : M W unit :=
  match mcp_clients su with
  | Some _ => close
  | None => mret tt
  end.

(** Lines 386-405 *)
Definition conclude (su : Setup) (st : LoopState)
    : W -> W * (LoopState * Outcome) := fun w =>
  match close_clients su w with
  | (w, inl e) => (w, (st, Raised e))
  | (w, inr _) =>
      let st := yield (TextMessage (final_answer st)) st in
      let st := yield (JsonMessage (usage_metadata (llm_usage st))) st in
      (w, (st, Finished))
  end.

(** The whole generator, drained: the last state, whose [yielded]
    holds every message in order, and how the run ended. *)
Definition _invoke (p : ReActParams) : W -> W * (LoopState * Outcome) :=
  fun w =>
    match setup p w with
    | (w, inl e) => (w, (initial_state [], Raised e))
    | (w, inr (su, prompt_messages_tools)) =>
        match while_loop (Z.to_nat (maximum_iterations p)) p su
                (initial_state prompt_messages_tools) w with
        | (w, (st, Finished)) => conclude su st w
        | r => r
        end
    end.

End Loop.

(** ** Prompt assembly *)

(** *** What the formatted texts need from Python *)

(** Truth value of a value, as [if v:] takes it *)
Definition py_truthy (v : pyval) : bool :=
  match v with
  | PNone => false
  | PBool b => b
  | PInt z => negb (z =? 0)
  | PFloat lit => negb (String.eqb lit "0.0" || String.eqb lit "-0.0")
  | PStr s => negb (String.eqb s EmptyString)
  | PList l => match l with [] => false | _ => true end
  | PDict d => dict_truthy d
  end.

(** [str(v)] of a list or a dictionary is their [repr], taken as given. *)
Class PyRepr := {
  container_repr : pyval -> string;
}.

(** [f"{v}"] *)
Definition py_str `{PyRepr} (v : pyval) : string :=
  match v with
  | PNone => "None"
  | PBool true => "True"
  | PBool false => "False"
  | PInt z => pretty z
  | PFloat lit => lit
  | PStr s => s
  | PList _ | PDict _ => container_repr v
  end.

(** [s.replace(old, new)] for a non-empty [old]: the occurrences are
    taken from the left and do not overlap.  [skip] counts the
    characters of a found occurrence that are still to be passed. *)
Fixpoint replace_from (old new : string) (skip : nat) (s : string) : string :=
  match s with
  | EmptyString => EmptyString
  | String c s' =>
      match skip with
      | S k => replace_from old new k s'
      | O =>
          if String.prefix old s
          then new ++ replace_from old new (String.length old - 1) s'
          else String c (replace_from old new 0 s')
      end
  end.

Definition replace (old new s : string) : string := replace_from old new 0 s.

(** A text that begins, or ends, with a whitespace character *)
Definition padded_left (s : string) : Prop :=
  ∃ w rest, w ∈ whitespace ∧ s = w ++ rest.

Definition padded_right (s : string) : Prop :=
  ∃ w rest, w ∈ whitespace ∧ s = rest ++ w.

(** An occurrence of [old] in [s] *)
Definition occurs (old s : string) : Prop := ∃ a b, s = a ++ old ++ b.

(** [old in s] *)
Fixpoint occursb (old s : string) : bool :=
  match s with
  | EmptyString => String.prefix old EmptyString
  | String _ s' => String.prefix old s || occursb old s'
  end.

(** *** The collaborators of prompt assembly *)

(** [AgentScratchpadUnit.is_final()] *)
Class ScratchpadSDK := {
  is_final : AgentScratchpadUnit -> bool;
}.

(** The template [REACT_PROMPT_TEMPLATES["english"]["chat"]["prompt"]]
    and [tool.model_dump(mode="json")] of a catalogue entry *)
Class PromptTemplates := {
  first_prompt : string;
  prompt_tool_dump : PromptMessageTool -> pyval;
}.

(** [AgentScratchpadUnit.Action(action_name=..., action_input=...)],
    which validates its fields *)
Class ActionModel := {
  Action_new : pyval -> pyval -> result Action;
}.

Section Prompt.
Context `{PyRepr} `{ScratchpadSDK} `{PromptTemplates} `{ActionModel}.

Definition newlines : string := bytes [10; 10]%N.

(** Lines 65-67 *)
Definition _user_prompt_message (query : string) : PromptMessage :=
  {| role := "user"; content := query |}.

(** Lines 69-99.  The entity built at line 71 is never false, so the
    [raise] of line 78 is never reached. *)
Definition _system_prompt_message (instruction : string)
    (_prompt_messages_tools : list PromptMessageTool) : PromptMessage :=
  let system_prompt :=
    replace "{{tool_names}}"
      (join ", " (map tool_name _prompt_messages_tools))
      (replace "{{tools}}"
         (json_dumps false
            (PList (map prompt_tool_dump _prompt_messages_tools)))
         (replace "{{instruction}}" instruction first_prompt)) in
  {| role := "system"; content := system_prompt |}.

(** Lines 407-415 *)
Definition _organize_user_query (query : string)
    (prompt_messages : list PromptMessage) : list PromptMessage :=
  (prompt_messages ++ [{| role := "user"; content := query |}])%list.

(** Lines 417-465, with the fields of [self] it reads as [self] *)
Definition _organize_prompt_messages (self : PromptInputs)
    : list PromptMessage :=
  let system_message :=
    _system_prompt_message (prompt_instruction self) (prompt_tools self) in
  let assistant_messages :=
    match prompt_scratchpad self with
    | [] => []
    | agent_scratchpad =>
        [{| role := "assistant";
            content :=
              foldl (fun content unit =>
                       if is_final unit then
                         content ++ "Final Answer: "
                         ++ py_str (agent_response unit)
                       else
                         let content :=
                           content ++ "Thought: " ++ thought unit
                           ++ newlines in
                         let content :=
                           if negb (String.eqb (action_str unit) EmptyString)
                           then content ++ "Action: " ++ action_str unit
                                ++ newlines
                           else content in
                         if py_truthy (observation unit)
                         then content ++ "Observation: "
                              ++ py_str (observation unit) ++ newlines
                         else content)
                EmptyString agent_scratchpad |}]
    end in
  let query_messages := _organize_user_query (prompt_query self) [] in
  let historic_messages := prompt_history self in
  match assistant_messages with
  | [] => (system_message :: historic_messages ++ query_messages)%list
  | _ =>
      (system_message :: historic_messages ++ query_messages
       ++ assistant_messages)%list
  end.

(** Lines 196-198 *)
Definition strip_contents (prompt_messages : list PromptMessage)
    : list PromptMessage :=
  map (fun msg => {| role := role msg; content := strip (content msg) |})
    prompt_messages.

(** Lines 570-576 *)
Definition _convert_dict_to_action (action : pydict) : result Action :=
  match dict_getitem action "action" with
  | inl e => inl e
  | inr name =>
      match dict_getitem action "action_input" with
      | inl e => inl e
      | inr input => Action_new name input
      end
  end.

(** Lines 578-595 *)
Definition _format_assistant_message
    (agent_scratchpad : list AgentScratchpadUnit) : string :=
  foldl (fun message scratchpad =>
           if is_final scratchpad then
             message ++ "Final Answer: " ++ py_str (agent_response scratchpad)
           else
             let message :=
               message ++ "Thought: " ++ thought scratchpad ++ newlines in
             let message :=
               if negb (String.eqb (action_str scratchpad) EmptyString)
               then message ++ "Action: " ++ action_str scratchpad ++ newlines
               else message in
             if py_truthy (observation scratchpad)
             then message ++ "Observation: " ++ py_str (observation scratchpad)
                  ++ newlines
             else message)
    EmptyString agent_scratchpad.

End Prompt.

(** *** Reading a run *)

(** One step of the comprehension of line 157 *)
Definition index_mcp_step (acc : result (gmap string pydict)) (tool : pydict)
    : result (gmap string pydict) :=
  match acc with
  | inl e => inl e
  | inr m =>
      match dict_get tool "name" with
      | Some (PStr n) => inr (<[n := tool]> m)
      | Some (PList _) => inl (TypeError "unhashable type: 'list'")
      | Some (PDict _) => inl (TypeError "unhashable type: 'dict'")
      | _ => inr m
      end
  end.

(** The text chunks of a reply, joined, and its last action chunk *)
Definition chunk_texts (chunks : list Chunk) : string :=
  foldr (fun chunk rest =>
           match chunk with
           | ChunkText s => s ++ rest
           | ChunkAction _ => rest
           end) EmptyString chunks.

Definition last_action (chunks : list Chunk) : option Action :=
  last (omap (fun chunk => match chunk with
                           | ChunkAction a => Some a
                           | ChunkText _ => None
                           end) chunks).

Definition is_log (m : AgentInvokeMessage) : bool :=
  match m with
  | LogStart _ _ _ | LogFinish _ _ _ => true
  | TextMessage _ | JsonMessage _ => false
  end.

(** ** Behaviours of the collaborators that claims speak about *)

Section Behaviours.
Context {W : Type}.
Context `{JsonDecoder} `{ToolBackends W} `{AgentSDK} `{AgentRuntime W}.

(** The round that starts in [st] and [w] is a tool round that comes
    to its end: the model replies with an action other than the final
    answer, the dispatcher returns from it, and the refresh of the
    catalogue raises nothing. *)
Definition round_dispatches (p : ReActParams) (su : Setup) (st : LoopState)
    (w : W) : Prop :=
  ∃ w1 stream a w2 r,
    llm_invoke (model p) (prompt_inputs p (assemble p st)) (stop su) w
      = (w1, inr stream)
    ∧ stream_error stream = None
    ∧ action (read_chunks (react_chunks stream)) = Some a
    ∧ lower (action_name a) ≠ "final answer"
    ∧ _handle_invoke_action a (mcp_clients su) (tool_instances su)
        (mcp_tool_instances su) w1 = (w2, inr r)
    ∧ (refresh_prompt_tools (tool_instances su)
         (_prompt_messages_tools (assemble p st))).2 = None.

(** The next [n] rounds of the run that is in [st] and [w] are such
    rounds, each starting where the one before it ended. *)
Fixpoint rounds_dispatch (n : nat) (p : ReActParams) (su : Setup)
    (st : LoopState) (w : W) : Prop :=
  match n with
  | O => True
  | S n =>
      round_dispatches p su st w
      ∧ rounds_dispatch n p su (round p su st w).2.1 (round p su st w).1
  end.

(** Closing the remote client, when there is one, returns. *)
Definition closes (su : Setup) : Prop :=
  ∀ w : W, ∃ w', close_clients su w = (w', inr tt).

(** The bookkeeping the loop maintains between rounds: the step
    counter is one ahead of the rounds run, and a prompt assembled in
    round [maximum_iterations] had no tools. *)
Definition between_rounds (p : ReActParams) (st : LoopState) : Prop :=
  Z.of_nat (rounds (trace st)) = iteration_step st - 1
  ∧ iteration_step st ≤ Z.max 0 (maximum_iterations p) + 1
  ∧ ∀ k c, (k, c) ∈ prompts (trace st) →
      k < iteration_step st ∧ (k = maximum_iterations p → c = []).

End Behaviours.

(** ** A sample deployment

    A world that logs every call to a collaborator, two local tools,
    a remote server with four tools, and a model that follows a script.
    The examples below run the strategy in it. *)

Module Sample.

Inductive Call :=
| ModelCall (round : nat) (catalogue : list string)
| LocalCall (name : string) (parameters : pydict)
| RemoteCall (name : string) (tool_args : pyval)
| McpOpen
| McpFetch
| McpClose.

Definition World := list Call.

Definition call {A} (c : Call) (r : result A) : M World A :=
  fun w => ((w ++ [c])%list, r).

(** The decoder on the texts the examples use: what [json.dumps] writes
    for the values below decodes to them; the other texts that occur
    ("Paris", "2+2 please") are no JSON. *)
Definition decodable : list pyval :=
  [PDict [("expr", PStr "2+2")]; PDict [("q", PStr "rocq")]; PDict []; PInt 5].

#[export] Instance decoder : JsonDecoder := {|
  json_loads s :=
    match find (fun v => String.eqb (json_dumps false v) s) decodable with
    | Some v => inr v
    | None => inl "Expecting value: line 1 column 1 (char 0)"
    end
|}.

Definition text_item (s : string) : pydict :=
  [("type", PStr "text"); ("text", PStr s)].

#[export] Instance backends : ToolBackends World := {|
  tool_invoke _ _ name parameters :=
    call (LocalCall name parameters)
      (if String.eqb name "calculator" then inr [TEXT "4"]
       else if String.eqb name "broken" then inl (RuntimeError "disk full")
       else inr [TEXT "local "; TEXT name]);
  execute_tool name tool_args :=
    call (RemoteCall name tool_args)
      (if String.eqb name "search" then inr [text_item "42"]
       else if String.eqb name "pair" then inr [text_item "a"; text_item "b"]
       else if String.eqb name "flaky" then inl (RuntimeError "timed out")
       else inr [text_item "remote"])
|}.

#[export] Instance sdk : AgentSDK := {|
  model_dump a :=
    PDict [("action_name", PStr (action_name a));
           ("action_input", input_value (action_input a))];
  to_dict a :=
    [("action", PStr (action_name a));
     ("action_input", input_value (action_input a))];
  PromptMessageTool_new name description parameters :=
    match name with
    | PStr n =>
        inr {| tool_name := n;
               tool_description := description;
               tool_parameters := parameters |}
    | _ => inl (ValueError "1 validation error for PromptMessageTool")
    end;
  _init_prompt_tools tools :=
    map (fun t => {| tool_name := identity_name (identity t);
                     tool_description := PStr EmptyString;
                     tool_parameters := PDict [] |})
      (default [] tools);
  update_prompt_message_tool _ prompt_tool := (prompt_tool, None);
  increase_usage total u :=
    match total with
    | None => Some u
    | Some t =>
        Some {| total_price := Qred (total_price t + total_price u);
                currency := currency u;
                total_tokens := total_tokens t + total_tokens u |}
    end;
  empty_usage :=
    {| total_price := 0; currency := "USD"; total_tokens := 0 |}
|}.

Definition remote_tools : list pydict :=
  map (fun n => [("name", PStr n); ("description", PStr "remote tool");
                 ("inputSchema", PDict [])])
    ["search"; "pair"; "flaky"; "calculator"].

(** The model answers round [n] with the [n]-th entry of the script. *)
Definition scripted (script : list LLMStream) : AgentRuntime World := {|
  llm_invoke _ inputs _ :=
    let n := length (prompt_scratchpad inputs) in
    call (ModelCall n (map tool_name (prompt_tools inputs)))
      (match script !! n with
       | Some s => inr s
       | None => inl (RuntimeError "model unavailable")
       end);
  McpClients_new _ _ _ := call McpOpen (inr McpClientsHandle);
  fetch_tools := call McpFetch (inr remote_tools);
  close := call McpClose (inr tt)
|}.

(** The model that gives the same reply whatever it is asked *)
Definition insistent (s : LLMStream) : AgentRuntime World := {|
  llm_invoke _ inputs _ :=
    call (ModelCall (length (prompt_scratchpad inputs))
            (map tool_name (prompt_tools inputs)))
      (inr s);
  McpClients_new _ _ _ := call McpOpen (inr McpClientsHandle);
  fetch_tools := call McpFetch (inr remote_tools);
  close := call McpClose (inr tt)
|}.

Definition llm_parameter (n : string) : ToolParameter :=
  {| param_name := n; param_form := LLM |}.

Definition local_tool (n : string) (ps : list ToolParameter) : ToolEntity :=
  {| identity := {| identity_name := n; identity_provider := "builtin" |};
     parameters := ps;
     runtime_parameters := [("precision", PInt 2)];
     provider_type := "builtin" |}.

Definition calculator : ToolEntity :=
  local_tool "calculator" [llm_parameter "expr"].

Definition broken : ToolEntity :=
  local_tool "broken"
    [llm_parameter "x"; {| param_name := "token"; param_form := FORM |}].

Definition converter : ToolEntity :=
  local_tool "converter" [llm_parameter "amount"; llm_parameter "unit"].

Definition clock : ToolEntity :=
  local_tool "clock" [{| param_name := "zone"; param_form := FORM |}].

Definition local_tools : list ToolEntity :=
  [calculator; broken; converter; clock].

Definition local_index : gmap string ToolEntity :=
  index_tools (Some local_tools).

Definition remote_index : gmap string pydict :=
  match index_mcp_tools remote_tools with
  | inr m => m
  | inl _ => ∅
  end.

(** A remote server that offers a tool under the name of the local
    "converter" *)
Definition shadowing_tools : list pydict := [[("name", PStr "converter")]].

Definition shadowing_index : gmap string pydict :=
  match index_mcp_tools shadowing_tools with
  | inr m => m
  | inl _ => ∅
  end.

(** Both registries in place, as [setup] leaves them when a server is
    configured *)
Definition deployment : Setup :=
  {| tool_instances := local_index;
     mcp_clients := Some McpClientsHandle;
     mcp_tool_instances := remote_index;
     stop := ["Observation"] |}.

Definition says (thinking : string) (a : option Action) : LLMStream :=
  {| react_chunks :=
       ChunkText thinking
       :: match a with Some a => [ChunkAction a] | None => [] end;
     stream_error := None;
     usage_slot :=
       Some (Some {| total_price := 1 # 100; currency := "USD";
                     total_tokens := 10 |}) |}.

Definition act (n : string) (i : ActionInput) : Action :=
  {| action_name := n; action_input := i |}.

Definition calculate : Action :=
  act "calculator" (InputDict [("expr", PStr "2+2")]).

Definition params (script_tools : option (list ToolEntity))
    (config : option string) (n : Z) : ReActParams :=
  {| query := "What is 2+2?";
     instruction := "Answer briefly.";
     model := {| provider := "openai"; model_name := "gpt";
                 stop_sequences := []; history_prompt_messages := [] |};
     tools := script_tools;
     mcp_servers_config := config;
     mcp_resources_as_tools := false;
     mcp_prompts_as_tools := false;
     maximum_iterations := n |}.

Definition run (script : list LLMStream) (p : ReActParams)
    : World * (LoopState * Outcome) :=
  @_invoke World decoder backends sdk (scripted script) p [].

Definition run_insistent (s : LLMStream) (p : ReActParams)
    : World * (LoopState * Outcome) :=
  @_invoke World decoder backends sdk (insistent s) p [].

Definition dispatch (a : Action) : World * result (pyval * pyval) :=
  _handle_invoke_action a (mcp_clients deployment) local_index remote_index [].

Definition last_thought (r : World * (LoopState * Outcome)) : option string :=
  thought <$> last (agent_scratchpad r.2.1).

(** What a drained run shows to the caller *)
Definition answers (r : World * (LoopState * Outcome)) : list string :=
  omap (fun m => match m with TextMessage t => Some t | _ => None end)
    (yielded r.2.1).

(** A remote server whose tools answer out of protocol: "empty"
    returns no item, "untyped" an item without "type". *)
Definition quirky : ToolBackends World := {|
  tool_invoke _ _ name parameters :=
    call (LocalCall name parameters) (inr [TEXT name]);
  execute_tool name tool_args :=
    call (RemoteCall name tool_args)
      (if String.eqb name "empty" then inr []
       else inr [[("text", PStr "no type given")]])
|}.

Definition quirky_index : gmap string pydict :=
  {[ "empty" := [("name", PStr "empty")];
     "untyped" := [("name", PStr "untyped")] ]}.

Definition dispatch_quirky (a : Action) : World * result (pyval * pyval) :=
  @_handle_invoke_action World decoder quirky a (Some McpClientsHandle)
    local_index quirky_index [].

#[export] Instance action_model : ActionModel := {|
  Action_new name input :=
    match name, input with
    | PStr n, PStr s => inr (act n (InputStr s))
    | PStr n, PDict d => inr (act n (InputDict d))
    | _, _ => inl (ValueError "1 validation error for Action")
    end
|}.

(** A template with the three placeholders, in the order of the
    template of the plugin *)
#[export] Instance short_template : PromptTemplates := {|
  first_prompt :=
    "Respond to the human. {{instruction}} You have access to these tools: "
    ++ "{{tools}} Valid action values: Final Answer or {{tool_names}}.";
  prompt_tool_dump t :=
    PDict [("name", PStr (tool_name t));
           ("description", tool_description t);
           ("parameters", tool_parameters t)]
|}.

(** A reply that reports no usage, and one that breaks off *)
Definition quiet (thinking : string) : LLMStream :=
  {| react_chunks := [ChunkText thinking];
     stream_error := None;
     usage_slot := None |}.

Definition broken_off (thinking : string) : LLMStream :=
  {| react_chunks := [ChunkText thinking];
     stream_error := Some (RuntimeError "connection reset");
     usage_slot := None |}.

Definition first_round (script : list LLMStream) (p : ReActParams)
    : World * (LoopState * option exn) :=
  @round World decoder backends sdk (scripted script) p deployment
    (initial_state []) [].

(** An SDK whose [update_prompt_message_tool] writes the LLM-facing
    parameters of the tool under "properties" of the entry, and fails
    with KeyError when the entry has no such key. *)
Definition strict_sdk : AgentSDK := {|
  model_dump := @model_dump sdk;
  to_dict := @to_dict sdk;
  PromptMessageTool_new := @PromptMessageTool_new sdk;
  _init_prompt_tools := @_init_prompt_tools sdk;
  update_prompt_message_tool t prompt_tool :=
    match llm_params t, tool_parameters prompt_tool with
    | [], _ => (prompt_tool, None)
    | _, PDict d =>
        match dict_get d "properties" with
        | Some _ => (prompt_tool, None)
        | None => (prompt_tool, Some (KeyError "properties"))
        end
    | _, _ =>
        (prompt_tool,
         Some (TypeError "string indices must be integers, not 'str'"))
    end;
  increase_usage := @increase_usage sdk;
  empty_usage := @empty_usage sdk
|}.

Definition run_strict (script : list LLMStream) (p : ReActParams)
    : World * (LoopState * Outcome) :=
  @_invoke World decoder backends strict_sdk (scripted script) p [].

End Sample.

(** ** The dispatcher: facts *)

Section DispatcherFacts.
Context {W : Type} `{JsonDecoder} `{ToolBackends W}.

Implicit Types (a : Action) (w : W) (t : ToolEntity) (d : pydict).
Implicit Types (ti : gmap string ToolEntity) (mti : gmap string pydict).

(** Every descriptor the comprehension of line 157 files under a name
    carries that name. *)
Lemma index_mcp_tools_named (mcp_tools : list pydict) mti n d :
  index_mcp_tools mcp_tools = inr mti →
  mti !! n = Some d →
  dict_get d "name" = Some (PStr n).
Proof.
  unfold index_mcp_tools.
  assert (Hinit : ∀ m0 : gmap string pydict,
             inr ∅ = (inr m0 : result _) →
             ∀ n d, m0 !! n = Some d → dict_get d "name" = Some (PStr n)).
  { intros m0 [= <-] n' d'. by rewrite lookup_empty. }
  revert Hinit. generalize (inr ∅ : result (gmap string pydict)).
  revert mti n d.
  induction mcp_tools as [|tool rest IH]; intros mti n d acc Hacc Hfold Hget.
  - simpl in Hfold. eauto.
  - simpl in Hfold. eapply IH; [|exact Hfold|exact Hget].
    intros m0 Hm0 n' d' Hn'.
    destruct acc as [e|m]; [done|].
    destruct (dict_get tool "name") as [[| | | |k| |]|] eqn:Hname;
      simplify_eq; eauto.
    destruct (decide (k = n')) as [->|Hne].
    + rewrite lookup_insert_eq in Hn'. by simplify_eq.
    + rewrite lookup_insert_ne in Hn' by done. eauto.
Qed.

(** Hence a remote tool found by name is never the empty dictionary. *)
Lemma index_mcp_tools_truthy (mcp_tools : list pydict) mti n d :
  index_mcp_tools mcp_tools = inr mti →
  mti !! n = Some d →
  mcp_truthy (mti !! n) = true.
Proof.
  intros Hidx Hget. rewrite Hget.
  pose proof (index_mcp_tools_named _ _ _ _ Hidx Hget) as Hname.
  by destruct d.
Qed.

(** Past the lookup, the dispatcher is the coercion followed by the
    guarded execution. *)
Lemma dispatch_resolved a clients ti mti args w :
  tool_truthy (ti !! action_name a) || mcp_truthy (mti !! action_name a)
    = true →
  coerce_args (ti !! action_name a) (action_input a) = inr args →
  _handle_invoke_action a clients ti mti w =
    let '(w', r) := execute clients (ti !! action_name a)
                      (mti !! action_name a) (action_name a) args w in
    (w', inr (observe r,
              invoke_parameters (ti !! action_name a)
                (mti !! action_name a) args)).
Proof.
  intros Hres Hco. unfold _handle_invoke_action.
  destruct (tool_truthy _), (mcp_truthy _) eqn:Hm; try done; simpl;
    unfold mbind, M_bind, bind, lift, attempt; rewrite Hco;
    by destruct (execute _ _ _ _ _ _).
Qed.

Lemma dispatch_coercion_raises a clients ti mti e w :
  tool_truthy (ti !! action_name a) || mcp_truthy (mti !! action_name a)
    = true →
  coerce_args (ti !! action_name a) (action_input a) = inl e →
  _handle_invoke_action a clients ti mti w = (w, inl e).
Proof.
  intros Hres Hco. unfold _handle_invoke_action.
  destruct (tool_truthy _), (mcp_truthy _) eqn:Hm; try done; simpl;
    unfold mbind, M_bind, bind, lift; by rewrite Hco.
Qed.

(** Execution of a remote tool *)
Lemma execute_remote c t_opt d_opt name args w :
  mcp_truthy d_opt = true →
  execute (Some c) t_opt d_opt name args w =
    match execute_tool name args w with
    | (w', inr content) => (w', mcp_result content)
    | (w', inl e) => (w', inl e)
    end.
Proof.
  intros Hm. unfold execute. rewrite Hm.
  unfold mbind, M_bind, bind, lift. by destruct (execute_tool _ _ _) as [? [|]].
Qed.

(** Execution of a local tool, once the parameters have merged *)
Lemma execute_local c_opt t d_opt name args parameters w :
  mcp_truthy d_opt = false →
  dict_unpack_merge (runtime_parameters t) args = inr parameters →
  execute c_opt (Some t) d_opt name args w =
    match tool_invoke (provider_type t) (identity_provider (identity t))
            (identity_name (identity t)) parameters w with
    | (w', inr responses) => (w', inr (PStr (render_responses responses)))
    | (w', inl e) => (w', inl e)
    end.
Proof.
  intros Hm Hmerge. unfold execute. rewrite Hm.
  unfold mbind, M_bind, bind, lift. rewrite Hmerge.
  by destruct (tool_invoke _ _ _ _ _) as [? [|]].
Qed.

(** The dispatcher raises only out of the coercion. *)
Lemma dispatch_returns a clients ti mti args w :
  tool_truthy (ti !! action_name a) || mcp_truthy (mti !! action_name a)
    = true →
  coerce_args (ti !! action_name a) (action_input a) = inr args →
  ∃ w' r, _handle_invoke_action a clients ti mti w = (w', inr r).
Proof.
  intros Hres Hco. rewrite (dispatch_resolved a clients ti mti args w) by done.
  destruct (execute _ _ _ _ _ _). eauto.
Qed.

(** C6.  An action whose name is in neither registry is answered,
    without any exception and without touching a backend, by the
    observation "there is not a tool named <name>"; the second
    component is the action's input as it came. *)
Theorem unknown_tool_observation a clients ti mti w :
  ti !! action_name a = None →
  mti !! action_name a = None →
  _handle_invoke_action a clients ti mti w =
    (w, inr (PStr ("there is not a tool named " ++ action_name a),
             input_value (action_input a))).
Proof.
  intros Ht Hm. unfold _handle_invoke_action. by rewrite Ht, Hm.
Qed.

(** C1, as the code has it.  When the action's name is in both
    registries the local tool is never executed.  The input is coerced
    first, the local tool serving only the fallback for a text that is
    no JSON; when the coercion raises (ValueError: the text is no JSON
    and the local tool declares more than one LLM-facing parameter) the
    exception leaves the dispatcher and no backend has been called.
    Otherwise line 510 tests the remote descriptor first, so the
    outcome is that of [execute_tool] on the coerced arguments. *)
Theorem same_name_runs_remote a c ti (mcp_tools : list pydict) mti t d w :
  ti !! action_name a = Some t →
  index_mcp_tools mcp_tools = inr mti →
  mti !! action_name a = Some d →
  _handle_invoke_action a (Some c) ti mti w
  = match coerce_args (Some t) (action_input a) with
    | inl e => (w, inl e)
    | inr args =>
        match execute_tool (action_name a) args w with
        | (w', inr content) => (w', inr (observe (mcp_result content), args))
        | (w', inl e) => (w', inr (invoke_error e, args))
        end
    end
  ∧ ∀ e, coerce_args (Some t) (action_input a) = inl e
         ↔ e = ValueError "tool call args is not a valid json string"
           ∧ (1 < length (llm_params t))%nat
           ∧ ∃ s msg, action_input a = InputStr s ∧ json_loads s = inl msg.
Proof.
  intros Ht Hidx Hd.
  pose proof (index_mcp_tools_truthy _ _ _ _ Hidx Hd) as Hm.
  split.
  - destruct (coerce_args (Some t) (action_input a)) as [e|args] eqn:Hco.
    + apply dispatch_coercion_raises; by rewrite Ht.
    + rewrite (dispatch_resolved a (Some c) ti mti args w);
        [|by rewrite Ht|by rewrite Ht].
      rewrite execute_remote by done.
      unfold invoke_parameters. rewrite Hm.
      by destruct (execute_tool _ _ _) as [? [|]].
  - intros e. unfold coerce_args.
    destruct (action_input a) as [s|i].
    + destruct (json_loads s) as [msg|v] eqn:Hjs.
      * destruct (1 <? length (llm_params t))%nat eqn:Hlen.
        -- apply Nat.ltb_lt in Hlen. split.
           ++ intros [= <-]. eauto 6.
           ++ by intros (-> & _).
        -- apply Nat.ltb_ge in Hlen. split; [done|]. intros (_ & ? & _). lia.
      * split; [done|]. intros (_ & _ & s' & msg' & [= <-] & ?). congruence.
    + split; [done|]. by intros (_ & _ & s' & msg' & ? & _).
Qed.

(** C5.  A text input that is no JSON, for a name the local registry
    knows: with one LLM-facing parameter [p] the arguments become
    {p: text}, with none they become the empty dictionary, and with
    more than one the dispatcher raises ValueError instead of
    returning an observation. *)
Theorem undecodable_text_coercion a clients ti mti t s msg w :
  ti !! action_name a = Some t →
  action_input a = InputStr s →
  json_loads s = inl msg →
  (∀ p, llm_params t = [p] →
     coerce_args (ti !! action_name a) (action_input a)
     = inr (PDict [(p, PStr s)]))
  ∧ (llm_params t = [] →
     coerce_args (ti !! action_name a) (action_input a) = inr (PDict []))
  ∧ ((1 < length (llm_params t))%nat →
     _handle_invoke_action a clients ti mti w =
       (w, inl (ValueError "tool call args is not a valid json string"))).
Proof.
  intros Ht Hin Hjs. rewrite Ht, Hin. unfold coerce_args. rewrite Hjs.
  split_and!.
  - by intros p ->.
  - by intros ->.
  - intros Hlen. apply dispatch_coercion_raises; [by rewrite Ht|].
    rewrite Ht, Hin. unfold coerce_args. rewrite Hjs.
    by apply Nat.ltb_lt in Hlen as ->.
Qed.

(** C7.  What a remote tool returned becomes the observation as
    follows: a single item of type "text" gives its text as it is; a
    single item of type "resource" gives the JSON text of its nested
    resource; any other single item gives the JSON text of the whole
    item; two or more items give the JSON text of the whole list. *)
Theorem remote_result_normalized a c ti mti args content w w' :
  mcp_truthy (mti !! action_name a) = true →
  coerce_args (ti !! action_name a) (action_input a) = inr args →
  execute_tool (action_name a) args w = (w', inr content) →
  (∀ item v, content = [item] →
     dict_get item "type" = Some (PStr "text") →
     dict_get item "text" = Some v →
     _handle_invoke_action a (Some c) ti mti w = (w', inr (v, args)))
  ∧ (∀ item v, content = [item] →
     dict_get item "type" = Some (PStr "resource") →
     dict_get item "resource" = Some v →
     _handle_invoke_action a (Some c) ti mti w
     = (w', inr (PStr (json_dumps false v), args)))
  ∧ (∀ item ty, content = [item] →
     dict_get item "type" = Some ty →
     ty ≠ PStr "text" → ty ≠ PStr "resource" →
     _handle_invoke_action a (Some c) ti mti w
     = (w', inr (PStr (json_dumps false (PDict item)), args)))
  ∧ ((2 ≤ length content)%nat →
     _handle_invoke_action a (Some c) ti mti w
     = (w', inr (PStr (json_dumps false (PList (map PDict content))),
                 args))).
Proof.
  intros Hm Hco Hex.
  assert (Hd : _handle_invoke_action a (Some c) ti mti w
               = (w', inr (observe (mcp_result content), args))).
  { rewrite (dispatch_resolved a (Some c) ti mti args w);
      [|by rewrite Hm, orb_true_r|done].
    rewrite execute_remote, Hex by done.
    unfold invoke_parameters. by rewrite Hm. }
  rewrite Hd. split_and!.
  - intros item v -> Hty Htx. unfold mcp_result, dict_getitem.
    by rewrite Hty, Htx.
  - intros item v -> Hty Hres. unfold mcp_result, dict_getitem.
    by rewrite Hty, Hres.
  - intros item ty -> Hty Hnt Hnr. unfold mcp_result, dict_getitem.
    rewrite Hty.
    assert (eq_str ty "text" = false) as ->.
    { destruct ty; try done. simpl. apply String.eqb_neq. congruence. }
    assert (eq_str ty "resource" = false) as ->.
    { destruct ty; try done. simpl. apply String.eqb_neq. congruence. }
    by destruct (_ || _).
  - intros Hlen. by destruct content as [|? [|? ?]]; simpl in *; try lia.
Qed.

End DispatcherFacts.

(** ** The loop: facts *)

Section LoopFacts.
Context {W : Type}.
Context `{JsonDecoder} `{ToolBackends W} `{AgentSDK} `{AgentRuntime W}.

Implicit Types (p : ReActParams) (su : Setup) (st : LoopState) (w : W).

Ltac react_cases :=
  unfold react;
  repeat match goal with
    | |- context [match stream_error ?s with _ => _ end] =>
        destruct (stream_error s) eqn:?
    | |- context [match action ?u with _ => _ end] =>
        destruct (action u) eqn:?
    | |- context [if is_final_answer ?a then _ else _] =>
        destruct (is_final_answer a) eqn:?
    | |- context [_handle_invoke_action ?a ?c ?ti ?mti ?w] =>
        destruct (_handle_invoke_action a c ti mti w) as [? [?|[? ?]]] eqn:?
    | |- context [match refresh_prompt_tools ?ti ?l with _ => _ end] =>
        destruct (refresh_prompt_tools ti l) as [? [?|]] eqn:?
    end.

(** What a round does to the step counter and to the trace *)
Lemma react_step p su st stream w :
  ∀ w' st', react p su st stream w = (w', (st', None)) →
  iteration_step st' = iteration_step st + 1.
Proof. intros w' st'. react_cases; intros [= <- <-]; done. Qed.

Lemma react_prompts p su st stream w :
  ∀ w' st' oe, react p su st stream w = (w', (st', oe)) →
  prompts (trace st') = prompts (trace st).
Proof.
  intros w' st' oe. unfold prompts.
  react_cases; intros [= <- <- <-]; simpl; try done;
    by rewrite omap_app, app_nil_r.
Qed.

Lemma assemble_step p st : iteration_step (assemble p st) = iteration_step st.
Proof. unfold assemble, begin_round. simpl. by destruct (_ =? _)%Z. Qed.

Lemma assemble_prompts p st :
  ∃ c, prompts (trace (assemble p st))
       = (prompts (trace st) ++ [(iteration_step st, c)])%list
       ∧ (iteration_step st = maximum_iterations p → c = []).
Proof.
  unfold assemble, begin_round. simpl.
  destruct (_ =? _)%Z eqn:Heq; simpl; unfold prompts; rewrite omap_app;
    simpl; eexists; split; try done.
  intros ?. apply Z.eqb_neq in Heq. done.
Qed.

Lemma round_step p su st w w' st' :
  round p su st w = (w', (st', None)) →
  iteration_step st' = iteration_step st + 1.
Proof.
  unfold round. destruct (llm_invoke _ _ _ _) as [w1 [e|stream]]; [done|].
  intros Hr. apply react_step in Hr. by rewrite assemble_step in Hr.
Qed.

Lemma round_prompts p su st w w' st' oe :
  round p su st w = (w', (st', oe)) →
  ∃ c, prompts (trace st')
       = (prompts (trace st) ++ [(iteration_step st, c)])%list
       ∧ (iteration_step st = maximum_iterations p → c = []).
Proof.
  unfold round. destruct (llm_invoke _ _ _ _) as [w1 [e|stream]].
  - intros [= <- <- <-]. apply assemble_prompts.
  - intros Hr. apply react_prompts in Hr. rewrite Hr. apply assemble_prompts.
Qed.

Lemma round_between p su st w w' st' :
  between_rounds p st →
  iteration_step st ≤ maximum_iterations p →
  round p su st w = (w', (st', None)) →
  between_rounds p st'.
Proof.
  intros (Hn & Hle & Hpr) Hcond Hr.
  pose proof (round_step _ _ _ _ _ _ Hr) as Hstep.
  destruct (round_prompts _ _ _ _ _ _ _ Hr) as (c & Htr & Hc).
  unfold between_rounds, rounds. rewrite Htr, length_app. simpl.
  split_and!; [unfold rounds in Hn; lia|lia|].
  intros k c' [Hin|Hin%list_elem_of_singleton]%elem_of_app.
  - destruct (Hpr _ _ Hin). split; [lia|done].
  - simplify_eq. split; [lia|done].
Qed.

(** The catalogue the trace records for a round is the one the model
    call of that round is given. *)
Lemma assemble_records p st :
  last (trace (assemble p st))
  = Some (PromptAssembled (iteration_step st)
            (prompt_tools (prompt_inputs p (assemble p st)))).
Proof.
  unfold assemble, begin_round. simpl.
  destruct (_ =? _); simpl; by rewrite last_snoc.
Qed.

(** However the loop ends, it has run at most [maximum_iterations]
    rounds and the prompt of round [maximum_iterations] saw no tool. *)
Lemma while_loop_rounds fuel p su st w w' st' o :
  between_rounds p st →
  while_loop fuel p su st w = (w', (st', o)) →
  Z.of_nat (rounds (trace st')) ≤ Z.max 0 (maximum_iterations p)
  ∧ ∀ c, (maximum_iterations p, c) ∈ prompts (trace st') → c = [].
Proof.
  revert st w. induction fuel as [|fuel IH]; intros st w Hinv; simpl.
  - destruct Hinv as (Hn & Hle & Hpr).
    destruct (_ && _); intros [= <- <- <-];
      (split; [lia|intros c Hin; by apply (Hpr _ _ Hin)]).
  - destruct (run_agent_state st && _) eqn:Hcond.
    + apply andb_prop in Hcond as [_ Hcond%Z.leb_le].
      destruct (round p su st w) as [w1 [st1 [e|]]] eqn:Hr.
      * intros [= <- <- <-].
        destruct (round_prompts _ _ _ _ _ _ _ Hr) as (c & Htr & Hc).
        destruct Hinv as (Hn & Hle & Hpr).
        unfold rounds in *. rewrite Htr, length_app. simpl.
        split; [lia|].
        intros c' [Hin|Hin%list_elem_of_singleton]%elem_of_app.
        -- by apply (Hpr _ _ Hin).
        -- simplify_eq. auto.
      * apply IH. by eapply round_between.
    + destruct Hinv as (Hn & Hle & Hpr). intros [= <- <- <-].
      split; [lia|intros c Hin; by apply (Hpr _ _ Hin)].
Qed.

Lemma initial_between p pt : between_rounds p (initial_state pt).
Proof.
  unfold between_rounds. simpl. split_and!; [done|lia|].
  intros k c Hin. by apply elem_of_nil in Hin.
Qed.

(** The fuel [_invoke] supplies is enough. *)
Lemma while_loop_fuel fuel p su st w :
  (Z.to_nat (maximum_iterations p + 1 - iteration_step st) ≤ fuel)%nat →
  (while_loop fuel p su st w).2.2 ≠ OutOfFuel.
Proof.
  revert st w. induction fuel as [|fuel IH]; intros st w Hfuel; simpl.
  - destruct (run_agent_state st); simpl; [|done].
    destruct (_ <=? _)%Z eqn:Hle; [|done].
    apply Z.leb_le in Hle. lia.
  - destruct (run_agent_state st && _) eqn:Hcond; [|done].
    apply andb_prop in Hcond as [_ Hcond%Z.leb_le].
    destruct (round p su st w) as [w1 [st1 [e|]]] eqn:Hr; [done|].
    apply IH. rewrite (round_step _ _ _ _ _ _ Hr). lia.
Qed.

Lemma conclude_trace su st w :
  trace (conclude su st w).2.1 = trace st.
Proof. unfold conclude. by destruct (close_clients su w) as [? [|]]. Qed.

(** [_invoke] always comes to an end. *)
Lemma _invoke_total p w : (_invoke p w).2.2 ≠ OutOfFuel.
Proof.
  unfold _invoke. destruct (setup p w) as [w0 [e|[su pt]]]; [done|].
  pose proof (while_loop_fuel (Z.to_nat (maximum_iterations p)) p su
                (initial_state pt) w0) as Hfuel.
  destruct (while_loop _ _ _ _ _) as [w1 [st1 [|e|]]]; simpl in *.
  - unfold conclude. by destruct (close_clients su w1) as [? [|]].
  - done.
  - apply Hfuel. lia.
Qed.

(** C3, as the code has it.  For a budget N >= 1 a run goes through
    at most N rounds, and the tool catalogue that round N hands to
    prompt assembly is empty.  (Whether round N dispatches a tool call
    is left to the model's reply.) *)
Theorem rounds_bounded_last_catalogue_empty p w :
  1 ≤ maximum_iterations p →
  Z.of_nat (rounds (trace (_invoke p w).2.1)) ≤ maximum_iterations p
  ∧ ∀ c, (maximum_iterations p, c) ∈ prompts (trace (_invoke p w).2.1) →
      c = [].
Proof.
  intros HN. unfold _invoke.
  destruct (setup p w) as [w0 [e|[su pt]]].
  - simpl. split; [unfold rounds; simpl; lia|].
    intros c Hin. by apply elem_of_nil in Hin.
  - destruct (while_loop _ _ _ _ _) as [w1 [st1 o]] eqn:Hloop.
    apply while_loop_rounds in Hloop; [|apply initial_between].
    replace (Z.max 0 (maximum_iterations p)) with (maximum_iterations p)
      in Hloop by lia.
    destruct o; simpl; try done.
    pose proof (conclude_trace su st1 w1) as Htr. by rewrite Htr.
Qed.

(** C10.  A budget of zero or less raises nothing of its own: after a
    setup that succeeded the loop body is never entered, and the run
    ends by yielding the empty text as the answer and a usage summary
    of price 0, empty currency and 0 tokens. *)
Theorem nonpositive_budget_empty_answer p w w0 su pt w' :
  maximum_iterations p ≤ 0 →
  setup p w = (w0, inr (su, pt)) →
  close_clients su w0 = (w', inr tt) →
  ∃ st, _invoke p w = (w', (st, Finished))
    ∧ rounds (trace st) = 0%nat
    ∧ agent_scratchpad st = []
    ∧ yielded st = [TextMessage EmptyString;
                    JsonMessage [(TOTAL_PRICE, MInt 0);
                                 (CURRENCY, MStr EmptyString);
                                 (TOTAL_TOKENS, MInt 0)]].
Proof.
  intros HN Hsetup Hclose. unfold _invoke. rewrite Hsetup.
  assert (Hloop : ∀ fuel, while_loop fuel p su (initial_state pt) w0
                          = (w0, (initial_state pt, Finished))).
  { intros [|fuel]; simpl;
      (destruct (_ <=? _)%Z eqn:Hle; [apply Z.leb_le in Hle; lia|done]). }
  rewrite Hloop. unfold conclude. rewrite Hclose. eauto.
Qed.

Lemma is_final_answer_spec (a : Action) :
  is_final_answer a = true ↔ lower (action_name a) = "final answer".
Proof. unfold is_final_answer. apply String.eqb_eq. Qed.

Lemma is_final_answer_false (a : Action) :
  lower (action_name a) ≠ "final answer" → is_final_answer a = false.
Proof.
  intros Hne. destruct (is_final_answer a) eqn:Hf; [|done].
  by apply is_final_answer_spec in Hf.
Qed.

Lemma assemble_run_agent_state p st :
  run_agent_state (assemble p st) = false.
Proof. unfold assemble, begin_round. simpl. by destruct (_ =? _). Qed.

Lemma assemble_final_answer p st :
  final_answer (assemble p st) = final_answer st.
Proof. unfold assemble, begin_round. simpl. by destruct (_ =? _). Qed.

(** The refresh of the catalogue keeps its length, whether or not it
    raises. *)
Lemma refresh_prompt_tools_length (ti : gmap string ToolEntity)
    (l : list PromptMessageTool) :
  length (refresh_prompt_tools ti l).1 = length l.
Proof.
  induction l as [|prompt_tool rest IH]; [done|]. cbn [refresh_prompt_tools].
  destruct (ti !! tool_name prompt_tool) as [t|].
  - destruct (update_prompt_message_tool t prompt_tool) as [t' [e|]]; simpl;
      by rewrite ?IH.
  - simpl. by rewrite IH.
Qed.

Ltac react_fields :=
  cbn [_prompt_messages_tools agent_scratchpad run_agent_state final_answer
       trace iteration_step yield record set_run_agent_state
       set_prompt_messages_tools set_final_answer set_llm_usage append_unit
       replace_last_unit next_step end_round].

(** A round in which the model acts and the dispatcher returns: what
    can still raise is the refresh of the catalogue. *)
Lemma react_dispatch p su st stream a w w2 obs params :
  stream_error stream = None →
  action (read_chunks (react_chunks stream)) = Some a →
  is_final_answer a = false →
  _handle_invoke_action a (mcp_clients su) (tool_instances su)
    (mcp_tool_instances su) w = (w2, inr (obs, params)) →
  ∃ st', react p su st stream w
         = (w2, (st', (refresh_prompt_tools (tool_instances su)
                         (_prompt_messages_tools st)).2))
    ∧ run_agent_state st' = true
    ∧ final_answer st' = final_answer st
    ∧ observation <$> last (agent_scratchpad st') = Some obs.
Proof.
  intros Herr Hact Hnf Hd. unfold react.
  rewrite Herr, Hact, Hnf, Hd. react_fields.
  destruct (refresh_prompt_tools (tool_instances su)
              (_prompt_messages_tools st)) as [l [e|]];
    (eexists; split; [reflexivity|]); react_fields;
    split_and!; try done; by rewrite last_snoc.
Qed.

(** A round in which the model gives no action, or the final one *)
Lemma react_no_action p su st stream w :
  stream_error stream = None →
  action (read_chunks (react_chunks stream)) = None →
  ∃ st', react p su st stream w = (w, (st', None))
    ∧ trace st' = trace st
    ∧ run_agent_state st' = run_agent_state st
    ∧ final_answer st' = thought (read_chunks (react_chunks stream)).
Proof.
  intros Herr Hact. unfold react. rewrite Herr, Hact. by eexists.
Qed.

Lemma react_final_answer p su st stream a w :
  stream_error stream = None →
  action (read_chunks (react_chunks stream)) = Some a →
  is_final_answer a = true →
  ∃ st', react p su st stream w
         = (w, (st', (refresh_prompt_tools (tool_instances su)
                        (_prompt_messages_tools st)).2))
    ∧ trace st' = trace st
    ∧ run_agent_state st' = run_agent_state st
    ∧ final_answer st' = answer_of_input (action_input a).
Proof.
  intros Herr Hact Hfin. unfold react. rewrite Herr, Hact, Hfin.
  react_fields.
  destruct (refresh_prompt_tools (tool_instances su)
              (_prompt_messages_tools st)) as [l [e|]];
    by eexists.
Qed.

Lemma react_dispatch_raises p su st stream a w w2 e :
  stream_error stream = None →
  action (read_chunks (react_chunks stream)) = Some a →
  is_final_answer a = false →
  _handle_invoke_action a (mcp_clients su) (tool_instances su)
    (mcp_tool_instances su) w = (w2, inl e) →
  ∃ st', react p su st stream w = (w2, (st', Some e)).
Proof.
  intros Herr Hact Hnf Hd. unfold react.
  rewrite Herr, Hact, Hnf, Hd. eauto.
Qed.

(** The loop, one round at a time *)
Lemma while_loop_unfold fuel p su st w :
  run_agent_state st = true →
  iteration_step st ≤ maximum_iterations p →
  while_loop (S fuel) p su st w
  = match round p su st w with
    | (w', (st', Some e)) => (w', (st', Raised e))
    | (w', (st', None)) => while_loop fuel p su st' w'
    end.
Proof.
  intros Hrun Hle. apply Z.leb_le in Hle. simpl. by rewrite Hrun, Hle.
Qed.

Lemma while_loop_stops fuel p su st w :
  run_agent_state st = false →
  while_loop fuel p su st w = (w, (st, Finished)).
Proof. intros Hrun. destruct fuel; simpl; by rewrite Hrun. Qed.

(** The loop never takes a round back. *)
Lemma while_loop_rounds_mono fuel p su st w w' st' o :
  while_loop fuel p su st w = (w', (st', o)) →
  (rounds (trace st) ≤ rounds (trace st'))%nat.
Proof.
  revert st w. induction fuel as [|fuel IH]; intros st w; simpl.
  - destruct (_ && _); by intros [= <- <- <-].
  - destruct (_ && _); [|by intros [= <- <- <-]].
    destruct (round p su st w) as [w1 [st1 [e|]]] eqn:Hr;
      destruct (round_prompts _ _ _ _ _ _ _ Hr) as (c & Htr & _).
    + intros [= <- <- <-]. unfold rounds. rewrite Htr, length_app. simpl. lia.
    + intros Hloop%IH. revert Hloop. unfold rounds.
      rewrite Htr, length_app. simpl. lia.
Qed.

Lemma round_dispatches_spec p su st w :
  round_dispatches p su st w →
  ∃ w' st', round p su st w = (w', (st', None))
    ∧ run_agent_state st' = true
    ∧ final_answer st' = final_answer st.
Proof.
  intros (w1 & stream & a & w2 & [obs ps] & Hllm & Herr & Hact & Hnf & Hd
          & Hfresh).
  apply is_final_answer_false in Hnf.
  destruct (react_dispatch p su (assemble p st) _ _ _ _ _ _ Herr Hact Hnf Hd)
    as (st' & Hr & Hrun & Hfa & _).
  rewrite Hfresh in Hr.
  exists w2, st'. unfold round. rewrite Hllm, Hr.
  by rewrite Hfa, assemble_final_answer.
Qed.

Lemma while_loop_dispatches n :
  ∀ fuel p su st w,
    run_agent_state st = true →
    between_rounds p st →
    n = Z.to_nat (maximum_iterations p + 1 - iteration_step st) →
    (n ≤ fuel)%nat →
    rounds_dispatch n p su st w →
    ∃ w' st', while_loop fuel p su st w = (w', (st', Finished))
      ∧ final_answer st' = final_answer st
      ∧ between_rounds p st'
      ∧ iteration_step st'
        = Z.max (iteration_step st) (maximum_iterations p + 1).
Proof.
  induction n as [|n IH]; intros fuel p su st w Hrun Hinv Hn Hfuel Hd.
  - exists w, st. split_and!; try done; [|lia].
    destruct fuel; simpl; rewrite Hrun; simpl;
      (destruct (_ <=? _) eqn:Hle; [apply Z.leb_le in Hle; lia|done]).
  - destruct fuel as [|fuel]; [lia|]. destruct Hd as [Hd Hrest].
    rewrite while_loop_unfold by (done || lia).
    destruct (round_dispatches_spec p su st w Hd)
      as (w1 & st1 & Hr & Hrun1 & Hfa).
    rewrite Hr in Hrest |- *. simpl in Hrest.
    pose proof (round_step _ _ _ _ _ _ Hr) as Hstep.
    destruct (IH fuel p su st1 w1 Hrun1) as (w' & st' & Hloop & Hfa' & Hinv'
                                             & Hst'); try done.
    { eapply round_between; [done| |done]. lia. }
    { lia. }
    { lia. }
    exists w', st'. split_and!; try done; [congruence|lia].
Qed.

(** C2, as the code has it.  When every round up to the budget
    dispatches a tool call and comes to its end (the dispatcher returns
    and the refresh of the catalogue raises nothing), the run ends
    normally after [maximum_iterations] rounds and the answer it yields
    is the empty text: [final_answer] is only assigned by a round that
    ends the conversation. *)
Theorem budget_exhausted_answer_empty p w w0 su pt :
  setup p w = (w0, inr (su, pt)) →
  rounds_dispatch (Z.to_nat (maximum_iterations p)) p su (initial_state pt)
    w0 →
  closes su →
  ∃ w' st, _invoke p w = (w', (st, Finished))
    ∧ Z.of_nat (rounds (trace st)) = Z.max 0 (maximum_iterations p)
    ∧ final_answer st = EmptyString
    ∧ ∃ earlier,
        yielded st
        = (earlier ++ [TextMessage EmptyString;
                       JsonMessage (usage_metadata (llm_usage st))])%list.
Proof.
  intros Hsetup Hacts Hcloses. unfold _invoke. rewrite Hsetup.
  destruct (while_loop_dispatches (Z.to_nat (maximum_iterations p))
              (Z.to_nat (maximum_iterations p)) p su
              (initial_state pt) w0 eq_refl (initial_between p pt))
    as (w1 & st1 & Hloop & Hfa & (Hn & _ & _) & Hstep);
    [simpl; f_equal; lia|done|done|].
  rewrite Hloop. unfold conclude.
  destruct (Hcloses w1) as (w' & ->).
  eexists _, _. split; [done|]. simpl in *.
  split_and!; [lia|done|].
  exists (yielded st1). rewrite Hfa. by rewrite <- app_assoc.
Qed.

(** C8.  Once the model has replied, the round treats the unit as
    terminal (it ends with [run_agent_state] false) exactly when the
    reply carried no action or an action whose lower-cased name is
    "final answer"; the answer is then the thought, respectively the
    action's input.  The loop runs no further round after a terminal
    unit, and with budget left a round that came to its end is the last
    one exactly when its unit is terminal.  After a final-answer action
    the catalogue is still refreshed, and an exception of the refresh
    leaves the loop. *)
Theorem terminal_unit_iff p su st stream w w1 :
  llm_invoke (model p) (prompt_inputs p (assemble p st)) (stop su) w
    = (w1, inr stream) →
  stream_error stream = None →
  ∃ w' st' oe, round p su st w = (w', (st', oe))
    ∧ (run_agent_state st' = false
       ↔ (action (read_chunks (react_chunks stream)) = None
          ∨ ∃ a, action (read_chunks (react_chunks stream)) = Some a
                 ∧ lower (action_name a) = "final answer"))
    ∧ (action (read_chunks (react_chunks stream)) = None →
       oe = None
       ∧ final_answer st' = thought (read_chunks (react_chunks stream)))
    ∧ (∀ a, action (read_chunks (react_chunks stream)) = Some a →
         lower (action_name a) = "final answer" →
         oe = (refresh_prompt_tools (tool_instances su)
                 (_prompt_messages_tools (assemble p st))).2
         ∧ final_answer st' = answer_of_input (action_input a))
    ∧ (run_agent_state st = true →
       iteration_step st ≤ maximum_iterations p →
       run_agent_state st' = false →
       ∀ fuel, while_loop (S fuel) p su st w
               = (w', (st', match oe with
                            | None => Finished
                            | Some e => Raised e
                            end)))
    ∧ (run_agent_state st = true →
       iteration_step st < maximum_iterations p →
       oe = None →
       ∀ fuel, while_loop (S fuel) p su st w = (w', (st', Finished))
               ↔ run_agent_state st' = false).
Proof.
  intros Hllm Herr.
  pose proof (assemble_run_agent_state p st) as Hrun.
  assert (Hround : ∃ w' st' oe, round p su st w = (w', (st', oe))
            ∧ (run_agent_state st' = false
               ↔ (action (read_chunks (react_chunks stream)) = None
                  ∨ ∃ a, action (read_chunks (react_chunks stream)) = Some a
                         ∧ lower (action_name a) = "final answer"))
            ∧ (action (read_chunks (react_chunks stream)) = None →
               oe = None
               ∧ final_answer st'
                 = thought (read_chunks (react_chunks stream)))
            ∧ (∀ a, action (read_chunks (react_chunks stream)) = Some a →
                 lower (action_name a) = "final answer" →
                 oe = (refresh_prompt_tools (tool_instances su)
                         (_prompt_messages_tools (assemble p st))).2
                 ∧ final_answer st' = answer_of_input (action_input a))).
  { unfold round. rewrite Hllm.
    destruct (action (read_chunks (react_chunks stream))) as [a|] eqn:Hact.
    - destruct (is_final_answer a) eqn:Hfin.
      + destruct (react_final_answer p su (assemble p st) _ _ w1
                    Herr Hact Hfin) as (st' & -> & _ & Hrun' & Hfa).
        apply is_final_answer_spec in Hfin. rewrite Hrun in Hrun'.
        eexists w1, st', _. split_and!; [done| |done|by intros a' [= <-] _].
        split; [intros _; right; eauto|done].
      + assert (Hname : lower (action_name a) ≠ "final answer").
        { intros Hn. apply is_final_answer_spec in Hn. congruence. }
        destruct (_handle_invoke_action a (mcp_clients su) (tool_instances su)
                    (mcp_tool_instances su) w1) as [w2 [e|[obs ps]]] eqn:Hd.
        * destruct (react_dispatch_raises p su (assemble p st) _ _ _ _ _
                      Herr Hact Hfin Hd) as (st' & Hr).
          assert (Hst : run_agent_state st' = true).
          { revert Hr. unfold react. rewrite Herr, Hact, Hfin, Hd.
            by intros [= <-]. }
          rewrite Hr. exists w2, st', (Some e).
          split_and!; [done| |done|by intros a' [= <-] ?].
          rewrite Hst. split; [done|]. by intros [?|(a' & [= <-] & ?)].
        * destruct (react_dispatch p su (assemble p st) _ _ _ _ _ _
                      Herr Hact Hfin Hd) as (st' & -> & Hrun' & _).
          eexists w2, st', _. rewrite Hrun'.
          split_and!; [done| |done|by intros a' [= <-] ?].
          split; [done|]. by intros [?|(a' & [= <-] & ?)].
    - destruct (react_no_action p su (assemble p st) _ w1 Herr Hact)
        as (st' & -> & _ & Hrun' & Hfa).
      rewrite Hrun in Hrun'.
      exists w1, st', None. split_and!; [done| |done|done].
      split; [by left|done]. }
  destruct Hround as (w' & st' & oe & Hr & Hiff & Hnone & Hfinal).
  exists w', st', oe. split_and!; try done.
  - intros Hst Hle Hstop fuel. rewrite while_loop_unfold, Hr by done.
    destruct oe; [done|]. by apply while_loop_stops.
  - intros Hst Hlt -> fuel. rewrite while_loop_unfold, Hr by (done || lia).
    split; [|by apply while_loop_stops].
    destruct (run_agent_state st') eqn:Hst'; [|done]. intros Hloop. exfalso.
    pose proof (round_step _ _ _ _ _ _ Hr) as Hstep.
    destruct fuel as [|fuel].
    + revert Hloop. simpl. rewrite Hst'. simpl.
      destruct (_ <=? _) eqn:Hle; [done|]. apply Z.leb_gt in Hle. lia.
    + rewrite while_loop_unfold in Hloop by (done || lia).
      destruct (round p su st' w') as [w3 [st3 [e|]]] eqn:Hr3; [done|].
      apply while_loop_rounds_mono in Hloop.
      destruct (round_prompts _ _ _ _ _ _ _ Hr3) as (c & Htr & _).
      revert Hloop. unfold rounds. rewrite Htr, length_app. simpl. lia.
Qed.

(** C4.  An exception raised while the resolved tool executes, on
    the local or the remote path, does not leave the dispatcher: it
    returns the observation "tool invoke error: <message>".  The round
    goes on with [run_agent_state] set and this observation in its
    unit; the only exception it can still end with is one of the
    refresh of the catalogue, never the tool's.  When the refresh
    raises nothing the step advances and the loop continues: it goes
    on from the state the round left and, with budget left, runs the
    next round. *)
Theorem tool_error_becomes_observation p su st stream a args e w w1 w2 :
  llm_invoke (model p) (prompt_inputs p (assemble p st)) (stop su) w
    = (w1, inr stream) →
  stream_error stream = None →
  action (read_chunks (react_chunks stream)) = Some a →
  lower (action_name a) ≠ "final answer" →
  tool_truthy (tool_instances su !! action_name a)
  || mcp_truthy (mcp_tool_instances su !! action_name a) = true →
  coerce_args (tool_instances su !! action_name a) (action_input a)
    = inr args →
  execute (mcp_clients su) (tool_instances su !! action_name a)
    (mcp_tool_instances su !! action_name a) (action_name a) args w1
    = (w2, inl e) →
  (∃ tool_invoke_parameters,
     _handle_invoke_action a (mcp_clients su) (tool_instances su)
       (mcp_tool_instances su) w1
     = (w2, inr (PStr ("tool invoke error: " ++ exn_str e),
                 tool_invoke_parameters)))
  ∧ ∃ st',
      round p su st w
      = (w2, (st', (refresh_prompt_tools (tool_instances su)
                      (_prompt_messages_tools (assemble p st))).2))
      ∧ run_agent_state st' = true
      ∧ observation <$> last (agent_scratchpad st')
        = Some (PStr ("tool invoke error: " ++ exn_str e))
      ∧ ((refresh_prompt_tools (tool_instances su)
            (_prompt_messages_tools (assemble p st))).2 = None →
         iteration_step st' = iteration_step st + 1
         ∧ (run_agent_state st = true →
            iteration_step st ≤ maximum_iterations p →
            ∀ fuel, while_loop (S fuel) p su st w
                    = while_loop fuel p su st' w2)
         ∧ (run_agent_state st = true →
            iteration_step st < maximum_iterations p →
            ∀ fuel, while_loop (S (S fuel)) p su st w
                    = match round p su st' w2 with
                      | (w3, (st3, Some e3)) => (w3, (st3, Raised e3))
                      | (w3, (st3, None)) => while_loop fuel p su st3 w3
                      end)).
Proof.
  intros Hllm Herr Hact Hname Hres Hco Hex.
  pose proof (dispatch_resolved a (mcp_clients su) (tool_instances su)
                (mcp_tool_instances su) args w1 Hres Hco) as Hd.
  rewrite Hex in Hd. simpl in Hd. split; [eauto|].
  apply is_final_answer_false in Hname.
  destruct (react_dispatch p su (assemble p st) _ _ _ _ _ _
              Herr Hact Hname Hd) as (st' & Hr & Hrun & _ & Hobs).
  assert (Hround : round p su st w
                   = (w2, (st', (refresh_prompt_tools (tool_instances su)
                                   (_prompt_messages_tools (assemble p st))).2))).
  { unfold round. by rewrite Hllm. }
  exists st'. split_and!; try done.
  intros Hfresh. rewrite Hfresh in Hround.
  pose proof (round_step _ _ _ _ _ _ Hround) as Hstep.
  split_and!; [done| |].
  - intros Hst Hle fuel. by rewrite while_loop_unfold, Hround.
  - intros Hst Hlt fuel.
    rewrite while_loop_unfold, Hround by (done || lia).
    apply while_loop_unfold; [done|lia].
Qed.

(** C9.  A name that only the remote registry knows, with a text
    input that is no JSON: the fallback of lines 499-503 reads the
    parameters of the local tool, which is None, and the
    AttributeError leaves the dispatcher and the loop; no observation
    is produced. *)
Theorem remote_only_text_input_raises p su st stream a s msg
    (mcp_tools : list pydict) d w w1 :
  llm_invoke (model p) (prompt_inputs p (assemble p st)) (stop su) w
    = (w1, inr stream) →
  stream_error stream = None →
  action (read_chunks (react_chunks stream)) = Some a →
  lower (action_name a) ≠ "final answer" →
  tool_instances su !! action_name a = None →
  index_mcp_tools mcp_tools = inr (mcp_tool_instances su) →
  mcp_tool_instances su !! action_name a = Some d →
  action_input a = InputStr s →
  json_loads s = inl msg →
  _handle_invoke_action a (mcp_clients su) (tool_instances su)
    (mcp_tool_instances su) w1
  = (w1, inl (AttributeError
                "'NoneType' object has no attribute 'parameters'"))
  ∧ ∃ st', round p su st w
           = (w1, (st', Some (AttributeError
                "'NoneType' object has no attribute 'parameters'")))
      ∧ (run_agent_state st = true →
         iteration_step st ≤ maximum_iterations p →
         ∀ fuel, while_loop (S fuel) p su st w
                 = (w1, (st', Raised (AttributeError
                      "'NoneType' object has no attribute 'parameters'")))).
Proof.
  intros Hllm Herr Hact Hname Ht Hidx Hd Hin Hjs.
  pose proof (index_mcp_tools_truthy _ _ _ _ Hidx Hd) as Hm.
  assert (Hraise : _handle_invoke_action a (mcp_clients su)
                     (tool_instances su) (mcp_tool_instances su) w1
                   = (w1, inl (AttributeError
                        "'NoneType' object has no attribute 'parameters'"))).
  { apply dispatch_coercion_raises; [by rewrite Hm, orb_true_r|].
    rewrite Ht, Hin. unfold coerce_args. by rewrite Hjs. }
  split; [done|].
  apply is_final_answer_false in Hname.
  destruct (react_dispatch_raises p su (assemble p st) _ _ _ _ _
              Herr Hact Hname Hraise) as (st' & Hr).
  assert (Hround : round p su st w
                   = (w1, (st', Some (AttributeError
                        "'NoneType' object has no attribute 'parameters'")))).
  { unfold round. by rewrite Hllm. }
  exists st'. split; [done|].
  intros Hrun Hle fuel. simpl. rewrite Hrun, Hround.
  apply Z.leb_le in Hle. by rewrite Hle.
Qed.

End LoopFacts.

(** ** The claims in the sample deployment *)

Import Sample.

(** "calculator" is in both registries; "search" only in the remote
    one; "unknown_tool" in neither. *)
Example registries :
  local_index !! "calculator" = Some calculator
  ∧ is_Some (remote_index !! "calculator")
  ∧ local_index !! "search" = None
  ∧ is_Some (remote_index !! "search")
  ∧ local_index !! "unknown_tool" = None
  ∧ remote_index !! "unknown_tool" = None.
Proof. vm_compute. split_and!; eauto. Qed.

Lemma unknown_tool_observation_witness :
  dispatch (act "unknown_tool" (InputStr "Paris"))
  = ([], inr (PStr "there is not a tool named unknown_tool", PStr "Paris")).
Proof.
  apply (unknown_tool_observation (W:=World)); vm_compute; reflexivity.
Defined.

(** C1 as stated fails: "calculator" is a local tool and a remote tool,
    and dispatching it calls the remote server and never the local
    backend. *)
Lemma same_name_runs_local_counterexample :
  local_index !! action_name calculate = Some calculator
  ∧ is_Some (remote_index !! action_name calculate)
  ∧ (dispatch calculate).1
    = [RemoteCall "calculator" (PDict [("expr", PStr "2+2")])]
  ∧ ¬ ∃ parameters, LocalCall "calculator" parameters ∈ (dispatch calculate).1.
Proof.
  assert (Hw : (dispatch calculate).1
               = [RemoteCall "calculator" (PDict [("expr", PStr "2+2")])])
    by (vm_compute; reflexivity).
  split_and!; [vm_compute; eauto ..|done|].
  rewrite Hw. intros [ps Hin]. apply list_elem_of_singleton in Hin. done.
Qed.

Lemma same_name_runs_remote_witness :
  dispatch (act "calculator" (InputStr "Paris"))
  = ([RemoteCall "calculator" (PDict [("expr", PStr "Paris")])],
     inr (PStr "remote", PDict [("expr", PStr "Paris")]))
  ∧ _handle_invoke_action (act "converter" (InputStr "Paris"))
      (Some McpClientsHandle) local_index shadowing_index []
    = ([], inl (ValueError "tool call args is not a valid json string")).
Proof.
  split.
  - refine (eq_trans
              (proj1 (same_name_runs_remote (W:=World)
                        (act "calculator" (InputStr "Paris")) McpClientsHandle
                        local_index remote_tools remote_index calculator
                        [("name", PStr "calculator");
                         ("description", PStr "remote tool");
                         ("inputSchema", PDict [])] [] _ _ _)) _);
      vm_compute; reflexivity.
  - refine (eq_trans
              (proj1 (same_name_runs_remote (W:=World)
                        (act "converter" (InputStr "Paris")) McpClientsHandle
                        local_index shadowing_tools shadowing_index converter
                        [("name", PStr "converter")] [] _ _ _)) _);
      vm_compute; reflexivity.
Defined.

Lemma undecodable_text_coercion_witness :
  coerce_args (local_index !! "calculator") (InputStr "Paris")
  = inr (PDict [("expr", PStr "Paris")])
  ∧ coerce_args (local_index !! "clock") (InputStr "Paris") = inr (PDict [])
  ∧ dispatch (act "converter" (InputStr "Paris"))
    = ([], inl (ValueError "tool call args is not a valid json string")).
Proof.
  split_and!.
  - refine (proj1 (undecodable_text_coercion (W:=World)
                     (act "calculator" (InputStr "Paris")) None local_index
                     remote_index calculator "Paris"
                     "Expecting value: line 1 column 1 (char 0)" [] _ _ _)
              "expr" _); vm_compute; reflexivity.
  - refine (proj1 (proj2 (undecodable_text_coercion (W:=World)
                     (act "clock" (InputStr "Paris")) None local_index
                     remote_index clock "Paris"
                     "Expecting value: line 1 column 1 (char 0)" [] _ _ _))
              _); vm_compute; reflexivity.
  - refine (proj2 (proj2 (undecodable_text_coercion (W:=World)
                     (act "converter" (InputStr "Paris"))
                     (Some McpClientsHandle) local_index
                     remote_index converter "Paris"
                     "Expecting value: line 1 column 1 (char 0)" [] _ _ _))
              _); vm_compute; reflexivity.
Defined.

Lemma remote_result_normalized_witness :
  dispatch (act "search" (InputDict [("q", PStr "rocq")]))
  = ([RemoteCall "search" (PDict [("q", PStr "rocq")])],
     inr (PStr "42", PDict [("q", PStr "rocq")]))
  ∧ dispatch (act "pair" (InputDict []))
    = ([RemoteCall "pair" (PDict [])],
       inr (PStr (json_dumps false (PList [PDict (text_item "a");
                                           PDict (text_item "b")])),
            PDict [])).
Proof.
  split.
  - refine (proj1 (remote_result_normalized (W:=World)
                     (act "search" (InputDict [("q", PStr "rocq")]))
                     McpClientsHandle local_index remote_index
                     (PDict [("q", PStr "rocq")]) [text_item "42"] []
                     [RemoteCall "search" (PDict [("q", PStr "rocq")])] _ _ _)
              (text_item "42") (PStr "42") _ _ _); vm_compute; reflexivity.
  - refine (proj2 (proj2 (proj2 (remote_result_normalized (W:=World)
                     (act "pair" (InputDict []))
                     McpClientsHandle local_index remote_index
                     (PDict []) [text_item "a"; text_item "b"] []
                     [RemoteCall "pair" (PDict [])] _ _ _))) _);
      vm_compute; try reflexivity; lia.
Defined.


(** C2 as stated fails: with a budget of two rounds and a model that
    asks for the calculator in both, the run ends normally, the thought
    of the last round is "I need the calculator", and the answer
    yielded is the empty text. *)
Lemma budget_exhausted_answer_counterexample :
  let r := run_insistent (says "I need the calculator" (Some calculate))
             (params (Some [calculator]) None 2) in
  r.2.2 = Finished
  ∧ dispatched (trace r.2.1) = [(1, calculate); (2, calculate)]
  ∧ last_thought r = Some "I need the calculator"
  ∧ answers r = [EmptyString]
  ∧ ¬ (Some <$> answers r = [last_thought r]).
Proof. vm_compute. split_and!; try reflexivity. intros [=]. Qed.

Lemma budget_exhausted_answer_empty_witness :
  ∃ w' st,
    run [says "I need the calculator" (Some calculate);
         says "Once more" (Some calculate)]
      (params (Some [calculator]) None 2) = (w', (st, Finished))
    ∧ Z.of_nat (rounds (trace st)) = 2
    ∧ final_answer st = EmptyString.
Proof.
  destruct (budget_exhausted_answer_empty (W:=World)
              (H2:=scripted [says "I need the calculator" (Some calculate);
                             says "Once more" (Some calculate)])
              (params (Some [calculator]) None 2) [] [] _ _ eq_refl)
    as (w' & st & Hrun & Hrounds & Hanswer & _).
  - refine (conj _ (conj _ I));
      (eexists _, _, calculate, _, _; split_and!;
       [vm_compute; reflexivity|reflexivity|reflexivity|vm_compute; intros [=]
       |vm_compute; reflexivity|vm_compute; reflexivity]).
  - intros w. exists w. reflexivity.
  - exists w', st. split_and!; done.
Defined.

(** C3 as stated fails in its last part: with a budget of one round
    the prompt of that round is assembled without tools, yet the model
    answers with the calculator action, which is dispatched and runs. *)
Lemma last_round_dispatch_counterexample :
  let r := run [says "I need the calculator" (Some calculate)]
             (params (Some [calculator]) None 1) in
  prompts (trace r.2.1) = [(1, [])]
  ∧ dispatched (trace r.2.1) = [(1, calculate)]
  ∧ r.1 = [ModelCall 0 [];
           LocalCall "calculator"
             [("precision", PInt 2); ("expr", PStr "2+2")]]
  ∧ ¬ (∀ a, (1, a) ∉ dispatched (trace r.2.1)).
Proof.
  assert (Hd : dispatched
                 (trace (run [says "I need the calculator" (Some calculate)]
                           (params (Some [calculator]) None 1)).2.1)
               = [(1, calculate)]) by (vm_compute; reflexivity).
  cbv zeta. rewrite Hd.
  split_and!; [vm_compute; reflexivity|done|vm_compute; reflexivity|].
  intros Hnone. apply (Hnone calculate). by apply list_elem_of_singleton.
Qed.

Lemma rounds_bounded_last_catalogue_empty_witness :
  let r := run [says "I need the calculator" (Some calculate);
                says "It is 4" None]
             (params (Some [calculator]) None 2) in
  Z.of_nat (rounds (trace r.2.1)) ≤ 2
  ∧ ∀ c, (2, c) ∈ prompts (trace r.2.1) → c = [].
Proof.
  apply (rounds_bounded_last_catalogue_empty (W:=World)
           (H2:=scripted [says "I need the calculator" (Some calculate);
                          says "It is 4" None])
           (params (Some [calculator]) None 2) []).
  simpl. lia.
Defined.

Lemma tool_error_becomes_observation_witness :
  ∃ st',
    first_round [says "Try the broken tool"
                   (Some (act "broken" (InputDict [("x", PInt 1)])))]
      (params (Some local_tools) None 3)
    = ([ModelCall 0 [];
        LocalCall "broken" [("precision", PInt 2); ("x", PInt 1)]],
       (st', None))
    ∧ run_agent_state st' = true
    ∧ iteration_step st' = 2
    ∧ observation <$> last (agent_scratchpad st')
      = Some (PStr "tool invoke error: disk full").
Proof.
  edestruct (tool_error_becomes_observation (W:=World)
               (H2:=scripted [says "Try the broken tool"
                      (Some (act "broken" (InputDict [("x", PInt 1)])))])
               (params (Some local_tools) None 3) deployment (initial_state [])
               (says "Try the broken tool"
                  (Some (act "broken" (InputDict [("x", PInt 1)]))))
               (act "broken" (InputDict [("x", PInt 1)]))
               (PDict [("x", PInt 1)]) (RuntimeError "disk full") []
               [ModelCall 0 []]
               [ModelCall 0 [];
                LocalCall "broken" [("precision", PInt 2); ("x", PInt 1)]])
    as [_ (st' & Hround & Hrun & Hobs & Hnext)];
    try (vm_compute; reflexivity); try (by vm_compute).
  destruct (Hnext eq_refl) as (Hstep & _).
  exists st'. split_and!; done.
Defined.

Lemma terminal_unit_iff_witness :
  ∃ w' st',
    first_round [says "That is easy" (Some (act "Final Answer" (InputStr "4")))]
      (params (Some local_tools) None 3)
    = (w', (st', None))
    ∧ run_agent_state st' = false
    ∧ final_answer st' = "4".
Proof.
  edestruct (terminal_unit_iff (W:=World)
               (H2:=scripted [says "That is easy"
                                (Some (act "Final Answer" (InputStr "4")))])
               (params (Some local_tools) None 3) deployment (initial_state [])
               (says "That is easy" (Some (act "Final Answer" (InputStr "4"))))
               [] [ModelCall 0 []])
    as (w' & st' & oe & Hround & Hiff & _ & Hfinal & _);
    [vm_compute; reflexivity ..|].
  destruct (Hfinal (act "Final Answer" (InputStr "4")) eq_refl eq_refl)
    as [-> Hfa].
  exists w', st'. split_and!; [done| |done].
  apply Hiff. right. exists (act "Final Answer" (InputStr "4")).
  split; reflexivity.
Defined.

Lemma remote_only_text_input_raises_witness :
  (∃ st',
     @round World decoder backends sdk
       (scripted [says "Look it up" (Some (act "search" (InputStr "Paris")))])
       (params (Some local_tools) None 3) deployment (initial_state []) []
     = ([ModelCall 0 []],
        (st', Some (AttributeError
                      "'NoneType' object has no attribute 'parameters'"))))
  ∧ (run [says "Look it up" (Some (act "search" (InputStr "Paris")))]
       (params (Some local_tools) (Some "{}") 3)).2.2
    = Raised (AttributeError "'NoneType' object has no attribute 'parameters'").
Proof.
  split; [|vm_compute; reflexivity].
  edestruct (remote_only_text_input_raises (W:=World)
               (H2:=scripted [says "Look it up"
                                (Some (act "search" (InputStr "Paris")))])
               (params (Some local_tools) None 3) deployment
               (initial_state [])
               (says "Look it up" (Some (act "search" (InputStr "Paris"))))
               (act "search" (InputStr "Paris")) "Paris"
               "Expecting value: line 1 column 1 (char 0)" remote_tools
               [("name", PStr "search"); ("description", PStr "remote tool");
                ("inputSchema", PDict [])]
               [] [ModelCall 0 []])
    as [_ (st' & Hround & _)];
    try (vm_compute; reflexivity); try (by vm_compute).
  by exists st'.
Defined.

Lemma nonpositive_budget_empty_answer_witness :
  ∃ st,
    run [says "I need the calculator" (Some calculate)]
      (params (Some [calculator]) None 0) = ([], (st, Finished))
    ∧ rounds (trace st) = 0%nat
    ∧ agent_scratchpad st = []
    ∧ yielded st = [TextMessage EmptyString;
                    JsonMessage [(TOTAL_PRICE, MInt 0);
                                 (CURRENCY, MStr EmptyString);
                                 (TOTAL_TOKENS, MInt 0)]].
Proof.
  eapply (nonpositive_budget_empty_answer (W:=World)
            (H2:=scripted [says "I need the calculator" (Some calculate)])
            (params (Some [calculator]) None 0) [] []);
    [simpl; lia|vm_compute; reflexivity|reflexivity].
Defined.

(** The two failing paths side by side: the local tool "broken" and the
    remote tool "flaky" both raise, and both calls come back with an
    observation. *)
Example failing_tools_observed :
  dispatch (act "broken" (InputDict [("x", PInt 1)]))
  = ([LocalCall "broken" [("precision", PInt 2); ("x", PInt 1)]],
     inr (PStr "tool invoke error: disk full",
          PDict [("precision", PInt 2); ("x", PInt 1)]))
  ∧ dispatch (act "flaky" (InputDict []))
    = ([RemoteCall "flaky" (PDict [])],
       inr (PStr "tool invoke error: timed out", PDict []))
  ∧ dispatch (act "broken" (InputStr "5"))
    = ([], inr (PStr "tool invoke error: 'int' object is not a mapping",
                PDict [])).
Proof. vm_compute. split_and!; reflexivity. Qed.

(** The refresh of the catalogue (lines 352-356) runs after a tool call
    and after a final answer alike, and what it raises leaves the run:
    the answer has been assigned by then, but it is never yielded. *)
Example refresh_failure_aborts :
  let r := run_strict [says "That is easy"
                         (Some (act "Final Answer" (InputStr "4")))]
             (params (Some [calculator]) None 3) in
  let r' := run_strict [says "I need the calculator" (Some calculate)]
              (params (Some [calculator]) None 3) in
  r.2.2 = Raised (KeyError "properties")
  ∧ final_answer r.2.1 = "4"
  ∧ answers r = []
  ∧ r'.2.2 = Raised (KeyError "properties")
  ∧ r'.1 = [ModelCall 0 ["calculator"];
            LocalCall "calculator"
              [("precision", PInt 2); ("expr", PStr "2+2")]].
Proof. vm_compute. split_and!; reflexivity. Qed.

(** The scenario of the specification: the calculator in round 1, the
    final answer in round 2. *)
Example two_round_scenario :
  let r := run [says "I need the calculator" (Some calculate);
                says "Now I know" (Some (act "Final Answer" (InputStr "4")))]
             (params (Some [calculator]) None 3) in
  r.2.2 = Finished
  ∧ answers r = ["4"]
  ∧ rounds (trace r.2.1) = 2%nat
  ∧ r.1 = [ModelCall 0 ["calculator"];
           LocalCall "calculator"
             [("precision", PInt 2); ("expr", PStr "2+2")];
           ModelCall 1 ["calculator"]].
Proof. vm_compute. split_and!; reflexivity. Qed.

(** ** More about the dispatcher *)

Section Strings.

Lemma string_app_nil_r (s : string) : s ++ EmptyString = s.
Proof.
  induction s as [|c s IH]; [done|].
  change (String c (s ++ EmptyString) = String c s). congruence.
Qed.

Lemma string_app_assoc (s1 s2 s3 : string) :
  (s1 ++ s2) ++ s3 = s1 ++ (s2 ++ s3).
Proof.
  induction s1 as [|c s1 IH]; [done|].
  change (String c ((s1 ++ s2) ++ s3) = String c (s1 ++ (s2 ++ s3))).
  congruence.
Qed.

Lemma string_app_length (s1 s2 : string) :
  String.length (s1 ++ s2) = (String.length s1 + String.length s2)%nat.
Proof.
  induction s1 as [|c s1 IH]; [done|].
  change (S (String.length (s1 ++ s2))
          = S (String.length s1 + String.length s2)).
  congruence.
Qed.

End Strings.

Section Dictionaries.

Implicit Types (a b d : pydict) (k : string) (v : pyval).

Lemma dict_get_set d k v k' :
  dict_get (dict_set d k v) k'
  = if String.eqb k k' then Some v else dict_get d k'.
Proof.
  induction d as [|[k0 v0] d IH]; simpl.
  - done.
  - destruct (String.eqb k0 k) eqn:Hk0; simpl.
    + apply String.eqb_eq in Hk0 as ->. by destruct (String.eqb k k').
    + destruct (String.eqb k0 k') eqn:Hk'; [|done].
      apply String.eqb_eq in Hk' as ->. by rewrite String.eqb_sym, Hk0.
Qed.

(** In [{**a, **b}] a key reads the last value [b] binds it to, and
    otherwise what [a] has. *)
Lemma dict_get_merge a b k :
  dict_get (dict_merge a b) k
  = match dict_get (reverse b) k with
    | Some v => Some v
    | None => dict_get a k
    end.
Proof.
  unfold dict_merge. revert a.
  induction b as [|[k0 v0] b IH]; intros a; simpl; [done|].
  rewrite IH, reverse_cons, dict_get_set.
  assert (Happ : ∀ l1 l2 : pydict,
            dict_get (l1 ++ l2) k
            = match dict_get l1 k with
              | Some v => Some v
              | None => dict_get l2 k
              end).
  { intros l1 l2. induction l1 as [|[k1 v1] l1 IH1]; simpl; [done|].
    by destruct (String.eqb k1 k). }
  rewrite Happ. simpl.
  destruct (dict_get (reverse b) k); [done|]. by destruct (String.eqb k0 k).
Qed.

Lemma dict_get_not_key d k : k ∉ d.*1 → dict_get d k = None.
Proof.
  induction d as [|[k0 v0] d IH]; simpl; [done|].
  intros Hnot. apply not_elem_of_cons in Hnot as [Hne Hnot].
  destruct (String.eqb k0 k) eqn:Hk; [|auto].
  apply String.eqb_eq in Hk. congruence.
Qed.

(** A dictionary binds each key once, so reading it backwards finds the
    same values. *)
Lemma dict_get_reverse d k : NoDup d.*1 → dict_get (reverse d) k = dict_get d k.
Proof.
  assert (Happ : ∀ l1 l2 : pydict,
            dict_get (l1 ++ l2) k
            = match dict_get l1 k with
              | Some v => Some v
              | None => dict_get l2 k
              end).
  { intros l1 l2. induction l1 as [|[k1 v1] l1 IH1]; simpl; [done|].
    by destruct (String.eqb k1 k). }
  induction d as [|[k0 v0] d IH]; simpl; [done|].
  intros [Hnot Hnd]%NoDup_cons. rewrite reverse_cons, Happ, IH by done. simpl.
  destruct (String.eqb k0 k) eqn:Hk.
  - apply String.eqb_eq in Hk as ->. by rewrite dict_get_not_key.
  - by destruct (dict_get d k).
Qed.

End Dictionaries.

Section DispatcherMore.
Context {W : Type} `{JsonDecoder} `{ToolBackends W}.

Implicit Types (a : Action) (w : W) (t : ToolEntity) (d : pydict).
Implicit Types (ti : gmap string ToolEntity) (mti : gmap string pydict).

(** X1.  The dispatcher raises in exactly one situation: the name is
    resolved, the input is a text that is no JSON, and the local tool
    is absent (AttributeError) or declares more than one LLM-facing
    parameter (ValueError).  No backend has been called by then. *)
Theorem dispatch_raises_iff a clients ti mti w w' e :
  _handle_invoke_action a clients ti mti w = (w', inl e)
  ↔ w' = w
    ∧ tool_truthy (ti !! action_name a) || mcp_truthy (mti !! action_name a)
      = true
    ∧ ∃ s msg,
        action_input a = InputStr s
        ∧ json_loads s = inl msg
        ∧ ((ti !! action_name a = None
            ∧ e = AttributeError
                    "'NoneType' object has no attribute 'parameters'")
           ∨ (∃ t, ti !! action_name a = Some t
                   ∧ (1 < length (llm_params t))%nat
                   ∧ e = ValueError
                           "tool call args is not a valid json string")).
Proof.
  destruct (tool_truthy (ti !! action_name a)
            || mcp_truthy (mti !! action_name a)) eqn:Hres.
  - destruct (coerce_args (ti !! action_name a) (action_input a))
      as [e0|args] eqn:Hco.
    + rewrite (dispatch_coercion_raises a clients ti mti e0 w Hres Hco).
      revert Hco. unfold coerce_args.
      destruct (action_input a) as [s|d]; [|done].
      destruct (json_loads s) as [msg|v] eqn:Hjs; [|done].
      destruct (ti !! action_name a) as [t|] eqn:Ht.
      * destruct (1 <? length (llm_params t))%nat eqn:Hlen; [|done].
        apply Nat.ltb_lt in Hlen. intros [= <-]. split.
        -- intros [= <- <-]. split_and!; try done.
           exists s, msg. split_and!; try done. right. by exists t.
        -- intros (-> & _ & s' & msg' & _ & _ & [[? _]|(t' & _ & _ & ->)]);
             done.
      * intros [= <-]. split.
        -- intros [= <- <-]. split_and!; try done.
           exists s, msg. split_and!; try done. by left.
        -- intros (-> & _ & s' & msg' & _ & _ & [[_ ->]|(t' & ? & _)]); done.
    + rewrite (dispatch_resolved a clients ti mti args w Hres Hco).
      destruct (execute _ _ _ _ _ _) as [w1 r]. split; [done|].
      intros (_ & _ & s & msg & Hin & Hjs & Hcase). exfalso.
      revert Hco. unfold coerce_args. rewrite Hin, Hjs.
      destruct Hcase as [[-> _]|(t & -> & Hlen & _)]; [done|].
      by apply Nat.ltb_lt in Hlen as ->.
  - unfold _handle_invoke_action.
    apply orb_false_elim in Hres as [-> ->]. simpl. split; [done|].
    by intros (_ & ? & _).
Qed.

(** X2.  Arguments that arrive as a dictionary for a tool only the
    local registry runs: the backend is called once, with the runtime
    parameters of the tool overridden and extended by the arguments of
    the action, and the same parameters are reported back. *)
Theorem local_arguments_override a clients ti mti t d w :
  ti !! action_name a = Some t →
  mcp_truthy (mti !! action_name a) = false →
  action_input a = InputDict d →
  NoDup d.*1 →
  let parameters := dict_merge (runtime_parameters t) d in
  (∀ k, dict_get parameters k
        = match dict_get d k with
          | Some v => Some v
          | None => dict_get (runtime_parameters t) k
          end)
  ∧ _handle_invoke_action a clients ti mti w
    = match tool_invoke (provider_type t) (identity_provider (identity t))
              (identity_name (identity t)) parameters w with
      | (w', inr responses) =>
          (w', inr (PStr (render_responses responses), PDict parameters))
      | (w', inl e) => (w', inr (invoke_error e, PDict parameters))
      end.
Proof.
  intros Ht Hm Hin Hnd parameters. split.
  - intros k. unfold parameters. by rewrite dict_get_merge, dict_get_reverse.
  - rewrite (dispatch_resolved a clients ti mti (PDict d) w);
      [|by rewrite Ht|by rewrite Hin].
    rewrite Ht, (execute_local clients t _ (action_name a) (PDict d)
                   (dict_merge (runtime_parameters t) d) w Hm eq_refl).
    unfold invoke_parameters. rewrite Hm. simpl.
    by destruct (tool_invoke _ _ _ _ _) as [? [|]].
Qed.

(** X3.  A text input that decodes to something other than an object
    never reaches a local tool: the merge with the runtime parameters
    fails, the observation names the type, no backend is called and
    the reported parameters are empty. *)
Theorem local_scalar_arguments_rejected a clients ti mti t s v w :
  ti !! action_name a = Some t →
  mcp_truthy (mti !! action_name a) = false →
  action_input a = InputStr s →
  json_loads s = inr v →
  (∀ d, v ≠ PDict d) →
  _handle_invoke_action a clients ti mti w
  = (w, inr (PStr ("tool invoke error: '" ++ type_name v
                   ++ "' object is not a mapping"),
             PDict [])).
Proof.
  intros Ht Hm Hin Hjs Hv.
  rewrite (dispatch_resolved a clients ti mti v w);
    [|by rewrite Ht|by rewrite Hin; unfold coerce_args; rewrite Hjs].
  rewrite Ht. unfold execute, invoke_parameters. rewrite Hm.
  unfold mbind, M_bind, bind, lift.
  destruct v; try done. by destruct (Hv d).
Qed.

(** X4.  Malformed results of a remote tool: an empty list is rendered
    as the JSON text of the empty list, and a single item that lacks
    the key it is read by ("type", then "text" or "resource") gives the
    observation "tool invoke error: '<key>'". *)
Theorem remote_result_edge_cases a c ti mti args content w w' :
  mcp_truthy (mti !! action_name a) = true →
  coerce_args (ti !! action_name a) (action_input a) = inr args →
  execute_tool (action_name a) args w = (w', inr content) →
  (content = [] →
     _handle_invoke_action a (Some c) ti mti w = (w', inr (PStr "[]", args)))
  ∧ (∀ item, content = [item] → dict_get item "type" = None →
     _handle_invoke_action a (Some c) ti mti w
     = (w', inr (PStr "tool invoke error: 'type'", args)))
  ∧ (∀ item, content = [item] →
     dict_get item "type" = Some (PStr "text") → dict_get item "text" = None →
     _handle_invoke_action a (Some c) ti mti w
     = (w', inr (PStr "tool invoke error: 'text'", args)))
  ∧ (∀ item, content = [item] →
     dict_get item "type" = Some (PStr "resource") →
     dict_get item "resource" = None →
     _handle_invoke_action a (Some c) ti mti w
     = (w', inr (PStr "tool invoke error: 'resource'", args))).
Proof.
  intros Hm Hco Hex.
  assert (Hd : _handle_invoke_action a (Some c) ti mti w
               = (w', inr (observe (mcp_result content), args))).
  { rewrite (dispatch_resolved a (Some c) ti mti args w);
      [|by rewrite Hm, orb_true_r|done].
    rewrite execute_remote, Hex by done.
    unfold invoke_parameters. by rewrite Hm. }
  rewrite Hd. split_and!.
  - by intros ->.
  - intros item -> Hty. unfold mcp_result, dict_getitem. by rewrite Hty.
  - intros item -> Hty Htx. unfold mcp_result, dict_getitem.
    by rewrite Hty, Htx.
  - intros item -> Hty Hres. unfold mcp_result, dict_getitem.
    by rewrite Hty, Hres.
Qed.

(** X5.  The observation of a local tool is put together response by
    response: rendering a sequence of responses is the concatenation of
    the renderings of its parts, and no response gives the empty text. *)
Theorem render_responses_app (rs1 rs2 : list ToolInvokeMessage) :
  render_responses (rs1 ++ rs2)
  = render_responses rs1 ++ render_responses rs2.
Proof.
  unfold render_responses. rewrite foldl_app.
  generalize (foldl (fun result r => result ++ render_response r)
                EmptyString rs1).
  induction rs2 as [|r rs2 IH] using rev_ind; intros acc.
  - simpl. by rewrite string_app_nil_r.
  - rewrite !foldl_app. simpl. by rewrite IH, string_app_assoc.
Qed.

End DispatcherMore.

(** ** Setting up: registries, stop sequences, the remote client *)

Section SetupFacts.
Context {W : Type}.
Context `{JsonDecoder} `{ToolBackends W} `{AgentSDK} `{AgentRuntime W}.

Lemma index_tools_snoc (l : list ToolEntity) (t : ToolEntity) :
  index_tools (Some (l ++ [t])%list)
  = <[identity_name (identity t) := t]> (index_tools (Some l)).
Proof. unfold index_tools. by rewrite foldl_app. Qed.

(** X6.  The local registry of line 140 finds under a name the last
    tool of the list that has this name, and nothing when no tool has
    it. *)
Theorem index_tools_last_wins (l : list ToolEntity) (n : string)
    (t : ToolEntity) :
  index_tools (Some l) !! n = Some t
  ↔ ∃ l1 l2, l = (l1 ++ t :: l2)%list
       ∧ identity_name (identity t) = n
       ∧ ∀ t', t' ∈ l2 → identity_name (identity t') ≠ n.
Proof.
  induction l as [|x l IH] using rev_ind.
  - simpl. rewrite lookup_empty. split; [done|].
    intros (l1 & l2 & Hl & _). by destruct l1.
  - rewrite index_tools_snoc. split.
    + destruct (decide (identity_name (identity x) = n)) as [Hx|Hx].
      * rewrite Hx, lookup_insert_eq. intros [= <-].
        exists l, []. split_and!; try done. intros t' Hin.
        by apply elem_of_nil in Hin.
      * rewrite lookup_insert_ne by done. intros Hl.
        apply IH in Hl as (l1 & l2 & -> & Hn & Hl2).
        exists l1, (l2 ++ [x])%list. split_and!; try done.
        -- by rewrite <- app_assoc.
        -- intros t' [Hin| ->%list_elem_of_singleton]%elem_of_app; auto.
    + intros (l1 & l2 & Hl & Hn & Hl2).
      destruct l2 as [|y l2 _] using rev_ind.
      * apply app_inj_tail in Hl as [-> ->].
        by rewrite Hn, lookup_insert_eq.
      * rewrite app_comm_cons, app_assoc in Hl.
        apply app_inj_tail in Hl as [-> ->].
        rewrite lookup_insert_ne.
        -- apply IH. exists l1, l2. split_and!; try done.
           intros t' Hin. apply Hl2, elem_of_app. by left.
        -- apply Hl2, elem_of_app. right. by apply list_elem_of_singleton.
Qed.

Lemma index_mcp_tools_snoc (l : list pydict) (tool : pydict) :
  index_mcp_tools (l ++ [tool])%list = index_mcp_step (index_mcp_tools l) tool.
Proof. unfold index_mcp_tools. by rewrite foldl_app. Qed.

(** X7.  The remote registry of line 157, when it can be built, finds
    under a name the last descriptor of the list whose "name" is that
    text. *)
Theorem index_mcp_tools_last_wins (mcp_tools : list pydict)
    (mti : gmap string pydict) (n : string) (d : pydict) :
  index_mcp_tools mcp_tools = inr mti →
  mti !! n = Some d
  ↔ ∃ l1 l2, mcp_tools = (l1 ++ d :: l2)%list
       ∧ dict_get d "name" = Some (PStr n)
       ∧ ∀ d', d' ∈ l2 → dict_get d' "name" ≠ Some (PStr n).
Proof.
  revert mti. induction mcp_tools as [|x l IH] using rev_ind; intros mti.
  - intros [= <-]. rewrite lookup_empty. split; [done|].
    intros (l1 & l2 & Hl & _). by destruct l1.
  - rewrite index_mcp_tools_snoc.
    destruct (index_mcp_tools l) as [e|m]; [done|]. simpl.
    specialize (IH m eq_refl).
    assert (Hskip : dict_get x "name" ≠ Some (PStr n) →
              m !! n = Some d
              ↔ ∃ l1 l2, (l ++ [x])%list = (l1 ++ d :: l2)%list
                   ∧ dict_get d "name" = Some (PStr n)
                   ∧ ∀ d', d' ∈ l2 → dict_get d' "name" ≠ Some (PStr n)).
    { intros Hx. rewrite IH. split.
      - intros (l1 & l2 & -> & Hn & Hl2).
        exists l1, (l2 ++ [x])%list. split_and!; try done.
        + by rewrite <- app_assoc.
        + intros d' [Hin| ->%list_elem_of_singleton]%elem_of_app; auto.
      - intros (l1 & l2 & Hl & Hn & Hl2).
        destruct l2 as [|y l2 _] using rev_ind.
        + apply app_inj_tail in Hl as [-> ->]. done.
        + rewrite app_comm_cons, app_assoc in Hl.
          apply app_inj_tail in Hl as [-> ->].
          exists l1, l2. split_and!; try done.
          intros d' Hin. apply Hl2, elem_of_app. by left. }
    destruct (dict_get x "name") as [[| | | |k| |]|] eqn:Hname;
      try (intros [= <-]; apply Hskip; done); try done.
    intros [= <-]. destruct (decide (k = n)) as [->|Hk].
    + rewrite lookup_insert_eq. split.
      * intros [= <-]. exists l, []. split_and!; try done.
        intros d' Hin. by apply elem_of_nil in Hin.
      * intros (l1 & l2 & Hl & Hn & Hl2).
        destruct l2 as [|y l2 _] using rev_ind.
        -- by apply app_inj_tail in Hl as [-> ->].
        -- rewrite app_comm_cons, app_assoc in Hl.
           apply app_inj_tail in Hl as [-> ->]. exfalso.
           apply (Hl2 y); [|done].
           apply elem_of_app. right. by apply list_elem_of_singleton.
    + rewrite lookup_insert_ne by done. apply Hskip. congruence.
Qed.

(** X8.  Building the remote registry fails exactly when some
    descriptor has a list or a dictionary as its "name". *)
Theorem index_mcp_tools_fails_iff (mcp_tools : list pydict) :
  (∃ e, index_mcp_tools mcp_tools = inl e)
  ↔ ∃ tool, tool ∈ mcp_tools
       ∧ ((∃ l, dict_get tool "name" = Some (PList l))
          ∨ (∃ d, dict_get tool "name" = Some (PDict d))).
Proof.
  induction mcp_tools as [|x l IH] using rev_ind.
  - split; [by intros [e [=]]|]. intros (tool & Hin & _).
    by apply elem_of_nil in Hin.
  - rewrite index_mcp_tools_snoc. split.
    + destruct (index_mcp_tools l) as [e|m] eqn:Hl.
      * intros _. destruct (proj1 IH) as (tool & Hin & Hbad); [eauto|].
        exists tool. split; [|done]. apply elem_of_app. by left.
      * simpl. intros [e He]. exists x. split.
        { apply elem_of_app. right. by apply list_elem_of_singleton. }
        destruct (dict_get x "name") as [[| | | | |l0|d0]|]; try done; eauto.
    + intros (tool & [Hin| ->%list_elem_of_singleton]%elem_of_app & Hbad).
      * destruct (proj2 IH) as [e ->]; [eauto|]. by exists e.
      * destruct (index_mcp_tools l) as [e|m]; [by exists e|]. simpl.
        destruct Hbad as [[l0 ->]|[d0 ->]]; eauto.
Qed.

(** X9.  The stop sequences of lines 124-133: the configured ones are
    kept in their order as a prefix, "Observation" is among the result
    for every provider but "wenxin", and nothing is added when it is
    there already or the provider is "wenxin". *)
Theorem init_stop_spec (m : AgentModelConfig) :
  (∃ added, init_stop m = (stop_sequences m ++ added)%list
            ∧ (added = [] ∨ added = ["Observation"]))
  ∧ (provider m ≠ "wenxin" → "Observation" ∈ init_stop m)
  ∧ ("Observation" ∈ stop_sequences m ∨ provider m = "wenxin" →
     init_stop m = stop_sequences m).
Proof.
  unfold init_stop, ignore_observation_providers.
  destruct (bool_decide ("Observation" ∉ stop_sequences m)) eqn:Hobs;
    destruct (bool_decide (provider m ∉ ["wenxin"])) eqn:Hprov; simpl.
  - apply bool_decide_eq_true in Hobs, Hprov. split_and!.
    + exists ["Observation"]. auto.
    + intros _. apply elem_of_app. right. by apply list_elem_of_singleton.
    + intros [?|Hw]; [done|]. exfalso. apply Hprov.
      by apply list_elem_of_singleton.
  - apply bool_decide_eq_false in Hprov. split_and!.
    + exists []. by rewrite app_nil_r; auto.
    + intros Hne. exfalso. apply Hprov. by intros ?%list_elem_of_singleton.
    + done.
  - apply bool_decide_eq_false in Hobs. split_and!.
    + exists []. by rewrite app_nil_r; auto.
    + intros _. by apply dec_stable.
    + done.
  - apply bool_decide_eq_false in Hobs. split_and!.
    + exists []. by rewrite app_nil_r; auto.
    + intros _. by apply dec_stable.
    + done.
Qed.

(** X10.  A server configuration that is no JSON (once the double
    quotes around it are stripped) aborts the run with ValueError
    before anything happens: no collaborator has been called and no
    message has been yielded. *)
Theorem invalid_mcp_config_aborts (p : ReActParams) (config msg : string)
    (w : W) :
  mcp_servers_config p = Some config →
  config ≠ EmptyString →
  json_loads (strip_char 34 config) = inl msg →
  _invoke p w
  = (w, (initial_state [],
         Raised (ValueError
                   ("mcp_servers_config must be a valid JSON string: "
                    ++ msg)))).
Proof.
  intros Hcfg Hne Hjs. unfold _invoke, setup, connect_mcp.
  rewrite Hcfg. destruct config as [|c config]; [done|].
  by rewrite Hjs.
Qed.

(** X11.  Without a server configuration (none, or the empty text,
    which is never decoded) setup calls no collaborator, creates no
    client, leaves the remote registry empty, and closing afterwards
    does nothing. *)
Theorem no_mcp_config_no_client (p : ReActParams) (w : W) :
  mcp_servers_config p = None ∨ mcp_servers_config p = Some EmptyString →
  ∃ su, setup p w = (w, inr (su, _init_prompt_tools (tools p)))
    ∧ mcp_clients su = None
    ∧ mcp_tool_instances su = ∅
    ∧ tool_instances su = index_tools (tools p)
    ∧ ∀ w', close_clients su w' = (w', inr tt).
Proof.
  intros Hcfg. unfold setup, connect_mcp.
  eexists. split.
  - destruct Hcfg as [-> | ->]; unfold mbind, M_bind, bind, lift, mret,
      M_ret, ret; simpl; by rewrite app_nil_r.
  - done.
Qed.

End SetupFacts.

(** ** More about the loop *)

Section LoopMore.
Context {W : Type}.
Context `{JsonDecoder} `{ToolBackends W} `{AgentSDK} `{AgentRuntime W}.

Implicit Types (p : ReActParams) (su : Setup) (st : LoopState) (w : W).

Lemma foldl_absorb (chunks : list Chunk) (u : AgentScratchpadUnit) :
  thought (foldl absorb u chunks) = thought u ++ chunk_texts chunks
  ∧ action (foldl absorb u chunks)
    = match last_action chunks with
      | Some a => Some a
      | None => action u
      end.
Proof.
  revert u. induction chunks as [|chunk chunks IH]; intros u.
  - simpl. by rewrite string_app_nil_r.
  - simpl. destruct (IH (absorb u chunk)) as [-> ->].
    unfold last_action. destruct chunk as [s|a]; simpl.
    + by rewrite string_app_assoc.
    + split; [done|]. rewrite last_cons. by destruct (last _).
Qed.

(** X12.  The unit of a round: its thought is the text chunks of the
    reply joined and stripped, or the stock sentence when the reply
    carried no text; its action is the last action chunk, if any. *)
Theorem read_chunks_spec (chunks : list Chunk) :
  thought (read_chunks chunks)
  = match chunk_texts chunks with
    | EmptyString => "I am thinking about how to help you"
    | t => strip t
    end
  ∧ action (read_chunks chunks) = last_action chunks.
Proof.
  unfold read_chunks, settle_thought. simpl.
  destruct (foldl_absorb chunks blank_unit) as [-> ->]. simpl.
  split; [done|]. by destruct (last_action chunks).
Qed.

Ltac react_split :=
  unfold react;
  repeat match goal with
    | |- context [match stream_error ?s with _ => _ end] =>
        destruct (stream_error s) eqn:?
    | |- context [match action ?u with _ => _ end] =>
        destruct (action u) eqn:?
    | |- context [if is_final_answer ?a then _ else _] =>
        destruct (is_final_answer a) eqn:?
    | |- context [_handle_invoke_action ?a ?c ?ti ?mti ?w] =>
        destruct (_handle_invoke_action a c ti mti w) as [? [?|[? ?]]] eqn:?
    | |- context [match refresh_prompt_tools ?ti ?l with _ => _ end] =>
        destruct (refresh_prompt_tools ti l) as [? [?|]] eqn:?
    end.

Lemma assemble_yielded p st :
  yielded (assemble p st)
  = (yielded st ++ [LogStart (round_label st) None []])%list.
Proof. unfold assemble, begin_round. simpl. by destruct (_ =? _). Qed.

Lemma assemble_scratchpad p st :
  agent_scratchpad (assemble p st) = agent_scratchpad st.
Proof. unfold assemble, begin_round. simpl. by destruct (_ =? _). Qed.

Lemma react_logs p su st stream w w' st' oe :
  react p su st stream w = (w', (st', oe)) →
  Forall (fun m => is_log m = true) (yielded st) →
  Forall (fun m => is_log m = true) (yielded st').
Proof.
  revert w' st' oe. react_split; intros w' st' oe [= <- <- <-] Hlogs; simpl;
    rewrite ?Forall_app; repeat split; try done;
    by apply Forall_singleton.
Qed.

Lemma round_logs p su st w w' st' oe :
  round p su st w = (w', (st', oe)) →
  Forall (fun m => is_log m = true) (yielded st) →
  Forall (fun m => is_log m = true) (yielded st').
Proof.
  unfold round. intros Hr Hlogs.
  assert (Hasm : Forall (fun m => is_log m = true) (yielded (assemble p st))).
  { rewrite assemble_yielded, Forall_app. split; [done|].
    by apply Forall_singleton. }
  destruct (llm_invoke _ _ _ _) as [w1 [e|stream]].
  - by simplify_eq.
  - by eapply react_logs.
Qed.

Lemma react_scratchpad p su st stream w w' st' oe :
  react p su st stream w = (w', (st', oe)) →
  (oe = None →
   length (agent_scratchpad st') = S (length (agent_scratchpad st)))
  ∧ (length (agent_scratchpad st) ≤ length (agent_scratchpad st')
     ≤ S (length (agent_scratchpad st)))%nat.
Proof.
  revert w' st' oe. react_split; intros w' st' oe [= <- <- <-]; simpl;
    rewrite ?removelast_last, ?length_app; simpl; split; try done; lia.
Qed.

Lemma round_scratchpad p su st w w' st' oe :
  round p su st w = (w', (st', oe)) →
  (oe = None →
   length (agent_scratchpad st') = S (length (agent_scratchpad st)))
  ∧ (length (agent_scratchpad st) ≤ length (agent_scratchpad st')
     ≤ S (length (agent_scratchpad st)))%nat.
Proof.
  unfold round. destruct (llm_invoke _ _ _ _) as [w1 [e|stream]].
  - intros [= <- <- <-]. rewrite assemble_scratchpad. split; [done|lia].
  - intros Hr. apply react_scratchpad in Hr.
    by rewrite assemble_scratchpad in Hr.
Qed.

(** An invariant of the rounds holds when the loop is left normally,
    and what a raising round establishes holds when it is left by an
    exception. *)
Lemma while_loop_invariant (I R : LoopState → Prop) p su :
  (∀ st w w' st',
     I st → iteration_step st ≤ maximum_iterations p →
     round p su st w = (w', (st', None)) → I st') →
  (∀ st w w' st' e,
     I st → iteration_step st ≤ maximum_iterations p →
     round p su st w = (w', (st', Some e)) → R st') →
  ∀ fuel st w w' st' o,
    I st →
    while_loop fuel p su st w = (w', (st', o)) →
    match o with Raised _ => R st' | _ => I st' end.
Proof.
  intros Hkeep Hraise fuel.
  induction fuel as [|fuel IH]; intros st w w' st' o Hinv; simpl.
  - destruct (_ && _); by intros [= <- <- <-].
  - destruct (_ && _) eqn:Hcond; [|by intros [= <- <- <-]].
    apply andb_prop in Hcond as [_ Hcond%Z.leb_le].
    destruct (round p su st w) as [w1 [st1 [e|]]] eqn:Hr.
    + intros [= <- <- <-]. eauto.
    + apply IH. eauto.
Qed.

(** X13.  The scratchpad history has one unit per completed round: a
    run that ends normally leaves as many units as it ran rounds, and a
    run that raises is at most the unit of the raising round short. *)
Theorem scratchpad_length_is_rounds p w :
  (length (agent_scratchpad (_invoke p w).2.1)
   ≤ rounds (trace (_invoke p w).2.1)
   ≤ S (length (agent_scratchpad (_invoke p w).2.1)))%nat
  ∧ ((_invoke p w).2.2 = Finished →
     length (agent_scratchpad (_invoke p w).2.1)
     = rounds (trace (_invoke p w).2.1)).
Proof.
  unfold _invoke. destruct (setup p w) as [w0 [e|[su pt]]].
  { simpl. split; [unfold rounds; simpl; lia|done]. }
  destruct (while_loop _ _ _ _ _) as [w1 [st1 o]] eqn:Hloop.
  pose proof (while_loop_invariant
    (fun st => length (agent_scratchpad st) = rounds (trace st))
    (fun st => (length (agent_scratchpad st) ≤ rounds (trace st)
                ≤ S (length (agent_scratchpad st)))%nat) p su) as Hinv.
  specialize (Hinv ltac:(
    intros st w2 w3 st3 Hst _ Hr;
    destruct (round_scratchpad _ _ _ _ _ _ _ Hr) as [Hlen _];
    destruct (round_prompts _ _ _ _ _ _ _ Hr) as (c & Htr & _);
    unfold rounds in *; rewrite Htr, length_app, Hlen by done;
    simpl; lia)).
  specialize (Hinv ltac:(
    intros st w2 w3 st3 e Hst _ Hr;
    destruct (round_scratchpad _ _ _ _ _ _ _ Hr) as [_ Hlen];
    destruct (round_prompts _ _ _ _ _ _ _ Hr) as (c & Htr & _);
    unfold rounds in *; rewrite Htr, length_app;
    simpl; lia)).
  apply Hinv in Hloop; [|reflexivity]. clear Hinv.
  destruct o; simpl in *.
  - unfold conclude. destruct (close_clients su w1) as [w2 [e|[]]]; simpl;
      (split; [lia|done]).
  - split; [done|done].
  - split; [lia|done].
Qed.

(** X14.  The answer is yielded once and last: a run that ends
    normally yields log messages, then the text of [final_answer], then
    the usage summary; a run that raises has yielded log messages
    only. *)
Theorem answer_yielded_last p w :
  match (_invoke p w).2.2 with
  | Finished =>
      ∃ logs,
        yielded (_invoke p w).2.1
        = (logs ++ [TextMessage (final_answer (_invoke p w).2.1);
                    JsonMessage
                      (usage_metadata (llm_usage (_invoke p w).2.1))])%list
        ∧ Forall (fun m => is_log m = true) logs
  | _ => Forall (fun m => is_log m = true) (yielded (_invoke p w).2.1)
  end.
Proof.
  unfold _invoke.
  destruct (setup p w) as [w0 [e|[su pt]]]; [simpl; by constructor|].
  destruct (while_loop _ _ _ _ _) as [w1 [st1 o]] eqn:Hloop.
  pose proof (while_loop_invariant
    (fun st => Forall (fun m => is_log m = true) (yielded st))
    (fun st => Forall (fun m => is_log m = true) (yielded st)) p su) as Hinv.
  specialize (Hinv ltac:(intros; by eapply round_logs)).
  specialize (Hinv ltac:(intros; by eapply round_logs)).
  apply Hinv in Hloop; [|by constructor]. clear Hinv.
  destruct o; simpl in *; try done.
  unfold conclude. destruct (close_clients su w1) as [w2 [e|[]]]; simpl.
  - done.
  - exists (yielded st1). split; [by rewrite <- app_assoc|done].
Qed.

End LoopMore.

Section Rounds.
Context {W : Type}.
Context `{JsonDecoder} `{ToolBackends W} `{AgentSDK} `{AgentRuntime W}.

Implicit Types (p : ReActParams) (su : Setup) (st : LoopState) (w : W).

Lemma assemble_dispatched p st :
  dispatched (trace (assemble p st)) = dispatched (trace st).
Proof.
  unfold assemble, begin_round, dispatched. simpl.
  destruct (_ =? _); simpl; by rewrite omap_app, app_nil_r.
Qed.

(** X15.  A round that ends the conversation calls no tool: the world
    it leaves is the one the model call left, no dispatch enters the
    trace and [run_agent_state] is false at its end.  Without action
    the round raises nothing; after a final-answer action it raises
    what the refresh of the catalogue raises, if anything. *)
Theorem terminal_round_calls_no_tool p su st stream w w1 :
  llm_invoke (model p) (prompt_inputs p (assemble p st)) (stop su) w
    = (w1, inr stream) →
  stream_error stream = None →
  terminal (read_chunks (react_chunks stream)) = true →
  ∃ st', round p su st w
         = (w1, (st', match action (read_chunks (react_chunks stream)) with
                      | None => None
                      | Some _ =>
                          (refresh_prompt_tools (tool_instances su)
                             (_prompt_messages_tools (assemble p st))).2
                      end))
    ∧ dispatched (trace st') = dispatched (trace st)
    ∧ run_agent_state st' = false.
Proof.
  intros Hllm Herr Hterm. unfold round. rewrite Hllm.
  unfold terminal in Hterm.
  destruct (action (read_chunks (react_chunks stream))) as [a|] eqn:Hact.
  - destruct (react_final_answer p su (assemble p st) stream a w1
                Herr Hact Hterm) as (st' & -> & Htr & Hrun & _).
    exists st'. split_and!; [done| |].
    + by rewrite Htr, assemble_dispatched.
    + by rewrite Hrun, assemble_run_agent_state.
  - destruct (react_no_action p su (assemble p st) stream w1 Herr Hact)
      as (st' & -> & Htr & Hrun & _).
    exists st'. split_and!; [done| |].
    + by rewrite Htr, assemble_dispatched.
    + by rewrite Hrun, assemble_run_agent_state.
Qed.

(** X16.  A reply without action in the first round ends the run at
    once: one round, no dispatch, and the answer yielded is the thought
    of that reply. *)
Theorem direct_answer p w w0 su pt stream w1 w2 :
  setup p w = (w0, inr (su, pt)) →
  1 ≤ maximum_iterations p →
  llm_invoke (model p) (prompt_inputs p (assemble p (initial_state pt)))
    (stop su) w0 = (w1, inr stream) →
  stream_error stream = None →
  action (read_chunks (react_chunks stream)) = None →
  close_clients su w1 = (w2, inr tt) →
  ∃ st, _invoke p w = (w2, (st, Finished))
    ∧ rounds (trace st) = 1%nat
    ∧ dispatched (trace st) = []
    ∧ final_answer st = thought (read_chunks (react_chunks stream))
    ∧ ∃ logs,
        yielded st
        = (logs ++ [TextMessage (thought (read_chunks (react_chunks stream)));
                    JsonMessage (usage_metadata (llm_usage st))])%list.
Proof.
  intros Hsetup HN Hllm Herr Hact Hclose.
  destruct (react_no_action p su (assemble p (initial_state pt)) stream w1
              Herr Hact) as (st' & Hr & Htr & Hrun & Hfa).
  rewrite assemble_run_agent_state in Hrun.
  assert (Hround : round p su (initial_state pt) w0 = (w1, (st', None))).
  { unfold round. by rewrite Hllm. }
  assert (Hloop : while_loop (Z.to_nat (maximum_iterations p)) p su
                    (initial_state pt) w0 = (w1, (st', Finished))).
  { destruct (Z.to_nat (maximum_iterations p)) as [|fuel] eqn:Hfuel; [lia|].
    simpl. destruct (_ <=? _) eqn:Hle; [|apply Z.leb_gt in Hle; lia].
    rewrite Hround. destruct fuel; simpl; by rewrite Hrun. }
  unfold _invoke. rewrite Hsetup, Hloop. unfold conclude. rewrite Hclose.
  eexists. split; [done|]. simpl.
  destruct (round_prompts _ _ _ _ _ _ _ Hround) as (c & Hp & _).
  split_and!.
  - unfold rounds. by rewrite Hp.
  - by rewrite Htr, assemble_dispatched.
  - done.
  - exists (yielded st'). by rewrite Hfa, <- app_assoc.
Qed.

(** X17.  An action naming a tool that neither registry knows does not
    stop the loop: the dispatcher touches no backend, the unit gets the
    observation "there is not a tool named <name>" and the round goes
    on with [run_agent_state] set; it raises only what the refresh of
    the catalogue raises.  When that is nothing the step advances and
    the loop goes on from the state the round left. *)
Theorem unknown_tool_round_continues p su st stream a w w1 :
  llm_invoke (model p) (prompt_inputs p (assemble p st)) (stop su) w
    = (w1, inr stream) →
  stream_error stream = None →
  action (read_chunks (react_chunks stream)) = Some a →
  lower (action_name a) ≠ "final answer" →
  tool_instances su !! action_name a = None →
  mcp_tool_instances su !! action_name a = None →
  ∃ st',
    round p su st w
    = (w1, (st', (refresh_prompt_tools (tool_instances su)
                    (_prompt_messages_tools (assemble p st))).2))
    ∧ run_agent_state st' = true
    ∧ observation <$> last (agent_scratchpad st')
      = Some (PStr ("there is not a tool named " ++ action_name a))
    ∧ ((refresh_prompt_tools (tool_instances su)
          (_prompt_messages_tools (assemble p st))).2 = None →
       iteration_step st' = iteration_step st + 1
       ∧ (run_agent_state st = true →
          iteration_step st ≤ maximum_iterations p →
          ∀ fuel, while_loop (S fuel) p su st w
                  = while_loop fuel p su st' w1)).
Proof.
  intros Hllm Herr Hact Hname Ht Hm.
  assert (Hd : _handle_invoke_action a (mcp_clients su) (tool_instances su)
                 (mcp_tool_instances su) w1
               = (w1, inr (PStr ("there is not a tool named "
                                 ++ action_name a),
                           input_value (action_input a)))).
  { unfold _handle_invoke_action. by rewrite Ht, Hm. }
  apply is_final_answer_false in Hname.
  destruct (react_dispatch p su (assemble p st) _ _ _ _ _ _
              Herr Hact Hname Hd) as (st' & Hr & Hrun & _ & Hobs).
  assert (Hround : round p su st w
                   = (w1, (st', (refresh_prompt_tools (tool_instances su)
                                   (_prompt_messages_tools (assemble p st))).2))).
  { unfold round. by rewrite Hllm. }
  exists st'. split_and!; try done.
  intros Hfresh. rewrite Hfresh in Hround. split.
  - apply (round_step _ _ _ _ _ _ Hround).
  - intros Hst Hle fuel. by rewrite while_loop_unfold, Hround.
Qed.

(** X18.  When the model call of the first round raises, the run
    raises the same exception: only the start of round 1 has been
    yielded, no unit has been recorded, and the world is left as the
    model call left it, so the remote client has not been closed. *)
Theorem model_failure_aborts p w w0 su pt w1 e :
  setup p w = (w0, inr (su, pt)) →
  1 ≤ maximum_iterations p →
  llm_invoke (model p) (prompt_inputs p (assemble p (initial_state pt)))
    (stop su) w0 = (w1, inl e) →
  ∃ st, _invoke p w = (w1, (st, Raised e))
    ∧ yielded st = [LogStart "ROUND 1" None []]
    ∧ agent_scratchpad st = []
    ∧ dispatched (trace st) = [].
Proof.
  intros Hsetup HN Hllm.
  assert (Hround : round p su (initial_state pt) w0
                   = (w1, (assemble p (initial_state pt), Some e))).
  { unfold round. by rewrite Hllm. }
  assert (Hloop : while_loop (Z.to_nat (maximum_iterations p)) p su
                    (initial_state pt) w0
                  = (w1, (assemble p (initial_state pt), Raised e))).
  { destruct (Z.to_nat (maximum_iterations p)) as [|fuel] eqn:Hfuel; [lia|].
    simpl. destruct (_ <=? _) eqn:Hle; [|apply Z.leb_gt in Hle; lia].
    by rewrite Hround. }
  unfold _invoke. rewrite Hsetup, Hloop.
  eexists. split; [done|].
  rewrite assemble_yielded, assemble_scratchpad, assemble_dispatched.
  done.
Qed.

(** X27.  When the reply of the first round breaks off with an
    exception while it is read, the run raises it: the starts of round
    1 and of the model call have been yielded, and no unit has been
    recorded. *)
Theorem stream_failure_aborts p w w0 su pt w1 stream e :
  setup p w = (w0, inr (su, pt)) →
  1 ≤ maximum_iterations p →
  llm_invoke (model p) (prompt_inputs p (assemble p (initial_state pt)))
    (stop su) w0 = (w1, inr stream) →
  stream_error stream = Some e →
  ∃ st, _invoke p w = (w1, (st, Raised e))
    ∧ yielded st
      = [LogStart "ROUND 1" None [];
         LogStart (model_name (model p) ++ " Thought") (Some "ROUND 1")
           [(PROVIDER, MStr (provider (model p)))]]
    ∧ agent_scratchpad st = [].
Proof.
  intros Hsetup HN Hllm Herr.
  destruct (react p su (assemble p (initial_state pt)) stream w1)
    as [w2 [st' oe]] eqn:Hr.
  assert (Hst : w2 = w1 ∧ oe = Some e
                ∧ yielded st'
                  = [LogStart "ROUND 1" None [];
                     LogStart (model_name (model p) ++ " Thought")
                       (Some "ROUND 1")
                       [(PROVIDER, MStr (provider (model p)))]]
                ∧ agent_scratchpad st' = []).
  { revert Hr. unfold react. rewrite Herr. intros [= <- <- <-].
    unfold yield, round_label. cbn [yielded agent_scratchpad].
    by rewrite assemble_yielded, assemble_scratchpad, assemble_step. }
  destruct Hst as (-> & -> & Hy & Hs).
  assert (Hround : round p su (initial_state pt) w0 = (w1, (st', Some e))).
  { unfold round. by rewrite Hllm. }
  assert (Hloop : while_loop (Z.to_nat (maximum_iterations p)) p su
                    (initial_state pt) w0 = (w1, (st', Raised e))).
  { destruct (Z.to_nat (maximum_iterations p)) as [|fuel] eqn:Hfuel; [lia|].
    simpl. destruct (_ <=? _) eqn:Hle; [|apply Z.leb_gt in Hle; lia].
    by rewrite Hround. }
  unfold _invoke. rewrite Hsetup, Hloop. by exists st'.
Qed.

Lemma react_prompt_tools p su st stream w w' st' oe :
  react p su st stream w = (w', (st', oe)) →
  length (_prompt_messages_tools st') = length (_prompt_messages_tools st).
Proof.
  revert w' st' oe. unfold react.
  destruct (stream_error stream); [by intros w' st' oe [= <- <- <-]|].
  destruct (action _) as [a|]; [|by intros w' st' oe [= <- <- <-]].
  destruct (is_final_answer a).
  - cbn [_prompt_messages_tools yield set_final_answer set_llm_usage
         append_unit].
    pose proof (refresh_prompt_tools_length (tool_instances su)
                  (_prompt_messages_tools st)) as Hlen.
    destruct (refresh_prompt_tools _ _) as [l [e|]];
      by intros w' st' oe [= <- <- <-].
  - destruct (_handle_invoke_action _ _ _ _ _) as [w2 [e|[obs ps]]];
      [by intros w' st' oe [= <- <- <-]|].
    cbn [_prompt_messages_tools yield record set_run_agent_state
         replace_last_unit set_llm_usage append_unit].
    pose proof (refresh_prompt_tools_length (tool_instances su)
                  (_prompt_messages_tools st)) as Hlen.
    destruct (refresh_prompt_tools _ _) as [l [e|]];
      by intros w' st' oe [= <- <- <-].
Qed.

Lemma assemble_catalogue p st :
  iteration_step st ≠ maximum_iterations p →
  _prompt_messages_tools (assemble p st) = _prompt_messages_tools st
  ∧ prompts (trace (assemble p st))
    = (prompts (trace st)
       ++ [(iteration_step st, _prompt_messages_tools st)])%list.
Proof.
  intros Hne. unfold assemble, begin_round. simpl.
  destruct (_ =? _) eqn:Heq; [apply Z.eqb_eq in Heq; done|]. simpl.
  split; [done|]. unfold prompts. by rewrite omap_app.
Qed.

(** X28.  Before the last round nothing is withheld: every round with
    a number other than [maximum_iterations] assembles its prompt with
    a catalogue of as many entries as setup produced. *)
Theorem earlier_rounds_full_catalogue p w w0 su pt k c :
  setup p w = (w0, inr (su, pt)) →
  (k, c) ∈ prompts (trace (_invoke p w).2.1) →
  k ≠ maximum_iterations p →
  length c = length pt.
Proof.
  intros Hsetup Hin Hk. unfold _invoke in Hin. rewrite Hsetup in Hin.
  destruct (while_loop _ _ _ _ _) as [w1 [st1 o]] eqn:Hloop.
  set (I := fun st : LoopState =>
         (iteration_step st ≤ maximum_iterations p →
          length (_prompt_messages_tools st) = length pt)
         ∧ ∀ k c, (k, c) ∈ prompts (trace st) →
             k ≠ maximum_iterations p → length c = length pt).
  assert (Hround : ∀ st w2 w3 st3 oe,
            I st → iteration_step st ≤ maximum_iterations p →
            round p su st w2 = (w3, (st3, oe)) →
            (∀ k c, (k, c) ∈ prompts (trace st3) →
               k ≠ maximum_iterations p → length c = length pt)
            ∧ (oe = None → iteration_step st3 ≤ maximum_iterations p →
               length (_prompt_messages_tools st3) = length pt)).
  { intros st w2 w3 st3 oe [Htools Hpr] Hcond Hr.
    assert (Hpst : prompts (trace st3) = prompts (trace (assemble p st))
                   ∧ length (_prompt_messages_tools st3)
                     = length (_prompt_messages_tools (assemble p st))
                   ∧ (oe = None → iteration_step st3 = iteration_step st + 1)).
    { revert Hr. unfold round.
      destruct (llm_invoke _ _ _ _) as [w4 [e|stream]].
      - by intros [= <- <- <-].
      - intros Hr. split_and!.
        + by eapply react_prompts.
        + by eapply react_prompt_tools.
        + intros ->. apply react_step in Hr. by rewrite assemble_step in Hr. }
    destruct Hpst as (Hp3 & Hl3 & Hs3).
    destruct (decide (iteration_step st = maximum_iterations p)) as [Heq|Hne].
    - split.
      + intros k' c' Hin' Hk'. rewrite Hp3 in Hin'.
        destruct (assemble_prompts p st) as (c0 & Hp0 & _).
        rewrite Hp0 in Hin'.
        apply elem_of_app in Hin' as [Hin'|Hin'%list_elem_of_singleton].
        * by eapply Hpr.
        * simplify_eq.
      + intros -> Hle. rewrite Hs3 in Hle by done. lia.
    - destruct (assemble_catalogue p st Hne) as [Ht0 Hp0]. split.
      + intros k' c' Hin' Hk'. rewrite Hp3, Hp0 in Hin'.
        apply elem_of_app in Hin' as [Hin'|Hin'%list_elem_of_singleton].
        * by eapply Hpr.
        * simplify_eq. by apply Htools.
      + intros _ _. rewrite Hl3, Ht0. by apply Htools. }
  pose proof (while_loop_invariant I
                (fun st => ∀ k c, (k, c) ∈ prompts (trace st) →
                   k ≠ maximum_iterations p → length c = length pt) p su)
    as Hinv.
  specialize (Hinv ltac:(
    intros st w2 w3 st3 Hst Hcond Hr;
    destruct (Hround _ _ _ _ _ Hst Hcond Hr) as [? ?]; split; auto)).
  specialize (Hinv ltac:(
    intros st w2 w3 st3 e Hst Hcond Hr;
    by destruct (Hround _ _ _ _ _ Hst Hcond Hr) as [? ?])).
  apply Hinv in Hloop.
  - destruct o; simpl in *.
    + rewrite conclude_trace in Hin. by eapply (proj2 Hloop).
    + by eapply Hloop.
    + by eapply (proj2 Hloop).
  - split; [done|]. intros k' c' Hin'. by apply elem_of_nil in Hin'.
Qed.

Lemma react_llm_usage p su st stream w w' st' oe :
  react p su st stream w = (w', (st', oe)) →
  llm_usage st' = llm_usage st
  ∨ llm_usage st' = (account (usage_slot stream) (llm_usage st)).1.
Proof.
  revert w' st' oe. unfold react.
  destruct (stream_error stream); [intros w' st' oe [= <- <- <-]; by left|].
  destruct (action _) as [a|]; [|intros w' st' oe [= <- <- <-]; by right].
  destruct (is_final_answer a).
  - destruct (refresh_prompt_tools _ _) as [l [e|]];
      intros w' st' oe [= <- <- <-]; by right.
  - destruct (_handle_invoke_action _ _ _ _ _) as [w2 [e|[obs ps]]];
      [intros w' st' oe [= <- <- <-]; by right|].
    destruct (refresh_prompt_tools _ _) as [l [e|]];
      intros w' st' oe [= <- <- <-]; by right.
Qed.

Lemma assemble_llm_usage p st : llm_usage (assemble p st) = llm_usage st.
Proof. unfold assemble, begin_round. simpl. by destruct (_ =? _). Qed.

(** X29.  Absent usage is not an error: when no reply of the model
    carries a usage, the run that ends normally closes with the summary
    of price 0, empty currency and 0 tokens. *)
Theorem no_usage_zero_summary p w :
  (∀ inputs w0 w1 stream,
     llm_invoke (model p) inputs (init_stop (model p)) w0 = (w1, inr stream) →
     ∀ u, usage_slot stream ≠ Some (Some u)) →
  (_invoke p w).2.2 = Finished →
  last (yielded (_invoke p w).2.1)
  = Some (JsonMessage [(TOTAL_PRICE, MInt 0);
                       (CURRENCY, MStr EmptyString);
                       (TOTAL_TOKENS, MInt 0)]).
Proof.
  intros Hnone. unfold _invoke.
  destruct (setup p w) as [w0 [e|[su pt]]] eqn:Hsetup; [done|].
  assert (Hstop : stop su = init_stop (model p)).
  { revert Hsetup. unfold setup, mbind, M_bind, bind, lift, mret, M_ret, ret.
    destruct (connect_mcp p w) as [w1 [e|[[c t] i]]]; [done|].
    destruct (_init_prompt_mcp_tools t); [done|]. by intros [= <- <- <-]. }
  destruct (while_loop _ _ _ _ _) as [w1 [st1 o]] eqn:Hloop.
  pose proof (while_loop_invariant (fun st => llm_usage st = None)
                (fun _ => True) p su) as Hinv.
  specialize (Hinv ltac:(
    intros st w2 w3 st3 Hst _; unfold round;
    destruct (llm_invoke (model p) (prompt_inputs p (assemble p st))
                (stop su) w2) as [w4 [e|stream]] eqn:Hllm; [done|];
    intros Hr; rewrite Hstop in Hllm;
    pose proof (Hnone _ _ _ _ Hllm) as Hslot;
    apply react_llm_usage in Hr; rewrite assemble_llm_usage, Hst in Hr;
    destruct Hr as [->| ->]; [done|];
    destruct (usage_slot stream) as [[u|]|]; [by destruct (Hslot u)|done..])).
  specialize (Hinv ltac:(done)).
  apply Hinv in Hloop; [|done].
  destruct o; simpl; try done.
  unfold conclude. destruct (close_clients su w1) as [w2 [e|[]]]; simpl.
  - done.
  - intros _. rewrite Hloop. simpl.
    by rewrite last_snoc.
Qed.

End Rounds.

(** ** Prompt assembly: facts *)

Section PromptFacts.
Context `{PyRepr} `{ScratchpadSDK} `{PromptTemplates} `{ActionModel}.
Context `{AgentSDK}.

(** X19.  The transcript of a scratchpad is put together unit by unit:
    the transcript of two histories in a row is the transcript of the
    first followed by that of the second, so a longer history only ever
    extends the text of a shorter one. *)
Theorem _format_assistant_message_app (l1 l2 : list AgentScratchpadUnit) :
  _format_assistant_message (l1 ++ l2)
  = _format_assistant_message l1 ++ _format_assistant_message l2.
Proof.
  unfold _format_assistant_message. rewrite foldl_app.
  match goal with |- foldl ?f ?acc l2 = _ => generalize acc; set (step := f) end.
  assert (Hstep : ∀ m u, step m u = m ++ step EmptyString u).
  { intros m u. unfold step.
    destruct (is_final u); simpl; [done|].
    destruct (negb _), (py_truthy _); simpl;
      by rewrite ?string_app_assoc. }
  induction l2 as [|u l2 IH] using rev_ind; intros acc.
  - simpl. by rewrite string_app_nil_r.
  - rewrite !foldl_app. simpl.
    rewrite (Hstep (foldl step acc l2)), (Hstep (foldl step EmptyString l2)).
    by rewrite IH, string_app_assoc.
Qed.

(** X20.  The messages of a round, in order: the system prompt, the
    history, the query as a user message and, only when the scratchpad
    has units, one assistant message whose content is the transcript
    [_format_assistant_message] writes for it. *)
Theorem _organize_prompt_messages_layout (self : PromptInputs) :
  _organize_prompt_messages self
  = (_system_prompt_message (prompt_instruction self) (prompt_tools self)
     :: prompt_history self
     ++ _user_prompt_message (prompt_query self)
     :: match prompt_scratchpad self with
        | [] => []
        | _ =>
            [{| role := "assistant";
                content :=
                  _format_assistant_message (prompt_scratchpad self) |}]
        end)%list.
Proof.
  unfold _organize_prompt_messages, _organize_user_query,
    _user_prompt_message, _format_assistant_message.
  by destruct (prompt_scratchpad self).
Qed.

Lemma prefix_occurs (old s : string) :
  String.prefix old s = true → ∃ b, s = old ++ b.
Proof.
  revert s. induction old as [|c old IH]; intros s.
  - intros _. by exists s.
  - destruct s as [|c' s]; cbn [String.prefix]; [done|].
    destruct (ascii_dec c c') as [->|]; [|done].
    intros [b ->]%IH. by exists b.
Qed.

Lemma replace_absent (old new s : string) :
  ¬ occurs old s → replace old new s = s.
Proof.
  unfold replace. induction s as [|c s IH]; intros Hno; [done|].
  cbn [replace_from].
  destruct (String.prefix old (String c s)) eqn:Hpre.
  - apply prefix_occurs in Hpre as [b Hb]. destruct Hno.
    exists EmptyString, b. by rewrite Hb.
  - f_equal. apply IH. intros (a & b & ->). apply Hno.
    by exists (String c a), b.
Qed.

Lemma prefix_app (old b : string) : String.prefix old (old ++ b) = true.
Proof.
  induction old as [|c old IH]; [by destruct b|].
  change (String c old ++ b) with (String c (old ++ b)). cbn [String.prefix].
  by destruct (ascii_dec c c).
Qed.

Lemma prefix_shorter (old x y : string) :
  String.prefix old (x ++ y) = true →
  (String.length old ≤ String.length x)%nat →
  String.prefix old x = true.
Proof.
  revert x. induction old as [|c old IH]; intros x.
  - intros _ _. by destruct x.
  - destruct x as [|c' x]; [intros _ Hlen; simpl in Hlen; lia|].
    change (String c' x ++ y) with (String c' (x ++ y)).
    cbn [String.prefix String.length].
    destruct (ascii_dec c c'); [|done]. intros Hp Hlen. apply IH; [done|lia].
Qed.

(** [occursb] finds every occurrence. *)
Lemma occursb_complete (old s : string) : occurs old s → occursb old s = true.
Proof.
  intros (a & b & ->). induction a as [|c a IH].
  - change (EmptyString ++ old ++ b) with (old ++ b).
    pose proof (prefix_app old b) as Hpre.
    destruct (old ++ b); cbn [occursb]; by rewrite Hpre.
  - change (String c a ++ old ++ b) with (String c (a ++ old ++ b)).
    cbn [occursb]. rewrite IH. apply orb_true_r.
Qed.

Lemma occursb_absent (old s : string) : occursb old s = false → ¬ occurs old s.
Proof. intros Hb Ho. apply occursb_complete in Ho. congruence. Qed.

Lemma replace_from_skip (old new o b : string) :
  replace_from old new (String.length o) (o ++ b) = replace_from old new 0 b.
Proof.
  induction o as [|c o IH]; [done|].
  change (String c o ++ b) with (String c (o ++ b)).
  cbn [replace_from String.length]. exact IH.
Qed.

(** The leftmost occurrence is replaced, and the search goes on behind
    it.  That [old] does not occur in [a] followed by all but the last
    character of [old] says that the occurrence behind [a] is the
    leftmost. *)
Lemma replace_first (old old' : string) (ch : ascii) (new a b : string) :
  old = old' ++ String ch EmptyString →
  ¬ occurs old (a ++ old') →
  replace old new (a ++ old ++ b) = a ++ new ++ replace old new b.
Proof.
  intros Hold. unfold replace. induction a as [|c a IH]; intros Hno.
  - change (EmptyString ++ old ++ b) with (old ++ b).
    change (EmptyString ++ new ++ replace_from old new 0 b)
      with (new ++ replace_from old new 0 b).
    assert (∃ c0 o1, old = String c0 o1) as (c0 & o1 & Hc).
    { rewrite Hold. destruct old'; eexists _, _; reflexivity. }
    pose proof (prefix_app old b) as Hpre. clear Hold Hno. subst old.
    change (String c0 o1 ++ b) with (String c0 (o1 ++ b)) in *.
    cbn [replace_from]. rewrite Hpre. cbn [String.length].
    replace (S (String.length o1) - 1)%nat with (String.length o1) by lia.
    by rewrite replace_from_skip.
  - change (String c a ++ old ++ b) with (String c (a ++ old ++ b)).
    change (String c a ++ new ++ replace_from old new 0 b)
      with (String c (a ++ new ++ replace_from old new 0 b)).
    cbn [replace_from].
    destruct (String.prefix old (String c (a ++ old ++ b))) eqn:Hpre.
    + exfalso. apply Hno.
      assert (Hshort : String.prefix old (String c a ++ old') = true).
      { apply (prefix_shorter old (String c a ++ old')
                 (String ch EmptyString ++ b)).
        - rewrite <- Hpre. f_equal.
          change (String c (a ++ old ++ b)) with (String c a ++ old ++ b).
          by rewrite Hold, !string_app_assoc.
        - rewrite Hold, !string_app_length. simpl. lia. }
      apply prefix_occurs in Hshort as [x Hx]. by exists EmptyString, x.
    + f_equal. apply IH. intros (x & y & Hxy). apply Hno.
      exists (String c x), y.
      change (String c x ++ old ++ y) with (String c (x ++ old ++ y)).
      change (String c a ++ old') with (String c (a ++ old')).
      by rewrite Hxy.
Qed.

(** X21.  The system prompt is the template with its placeholders
    filled in: for a template that has "{{instruction}}", "{{tools}}"
    and "{{tool_names}}" once each, in this order, the content is the
    template with the instruction, the JSON text of the catalogue and
    the names of its tools joined by ", " in their places.  The three
    replacements run one after the other, each on the result of the one
    before, so the placeholders of the later ones must not come up in
    what has been filled in by then. *)
Theorem _system_prompt_message_substitutes (instruction : string)
    (catalogue : list PromptMessageTool) (a b c d : string) :
  first_prompt
  = a ++ "{{instruction}}" ++ b ++ "{{tools}}" ++ c ++ "{{tool_names}}" ++ d →
  ¬ occurs "{{instruction}}" (a ++ "{{instruction}") →
  ¬ occurs "{{instruction}}" (b ++ "{{tools}}" ++ c ++ "{{tool_names}}" ++ d) →
  ¬ occurs "{{tools}}" (a ++ instruction ++ b ++ "{{tools}") →
  ¬ occurs "{{tools}}" (c ++ "{{tool_names}}" ++ d) →
  ¬ occurs "{{tool_names}}"
      (a ++ instruction ++ b
       ++ json_dumps false (PList (map prompt_tool_dump catalogue))
       ++ c ++ "{{tool_names}") →
  ¬ occurs "{{tool_names}}" d →
  _system_prompt_message instruction catalogue
  = {| role := "system";
       content :=
         a ++ instruction ++ b
         ++ json_dumps false (PList (map prompt_tool_dump catalogue))
         ++ c ++ join ", " (map tool_name catalogue) ++ d |}.
Proof.
  intros Hfp Hi Hi' Ht Ht' Hn Hn'. unfold _system_prompt_message. f_equal.
  rewrite Hfp.
  rewrite (replace_first "{{instruction}}" "{{instruction}" "}" instruction
             a _ eq_refl Hi), (replace_absent _ _ _ Hi').
  set (tools_json := json_dumps false (PList (map prompt_tool_dump catalogue)))
    in *.
  set (names := join ", " (map tool_name catalogue)).
  replace (a ++ instruction ++ b ++ "{{tools}}" ++ c ++ "{{tool_names}}" ++ d)
    with ((a ++ instruction ++ b) ++ "{{tools}}" ++ c ++ "{{tool_names}}" ++ d)
    by (by rewrite !string_app_assoc).
  rewrite (replace_first "{{tools}}" "{{tools}" "}" tools_json
             (a ++ instruction ++ b) _ eq_refl),
    (replace_absent _ _ _ Ht');
    [|by rewrite !string_app_assoc].
  replace ((a ++ instruction ++ b) ++ tools_json ++ c ++ "{{tool_names}}" ++ d)
    with ((a ++ instruction ++ b ++ tools_json ++ c) ++ "{{tool_names}}" ++ d)
    by (by rewrite !string_app_assoc).
  rewrite (replace_first "{{tool_names}}" "{{tool_names}" "}" names
             (a ++ instruction ++ b ++ tools_json ++ c) _ eq_refl),
    (replace_absent _ _ _ Hn');
    [|by rewrite !string_app_assoc].
  by rewrite !string_app_assoc.
Qed.

(** X22.  The catalogue entries of the remote tools: the conversion
    succeeds exactly when every descriptor passes the validation of
    [PromptMessageTool], and then gives one entry per descriptor, in
    order, built from its "name", its "description" (the empty text
    when absent) and its "inputSchema". *)
Theorem _init_prompt_mcp_tools_spec (mcp_tools : list pydict)
    (catalogue : list PromptMessageTool) :
  _init_prompt_mcp_tools mcp_tools = inr catalogue
  ↔ Forall2 (fun tool prompt_message =>
               PromptMessageTool_new
                 (default PNone (dict_get tool "name"))
                 (default (PStr EmptyString) (dict_get tool "description"))
                 (default PNone (dict_get tool "inputSchema"))
               = inr prompt_message)
      mcp_tools catalogue.
Proof.
  revert catalogue.
  induction mcp_tools as [|tool rest IH]; intros catalogue; simpl.
  - split.
    + intros [= <-]. constructor.
    + by intros ->%Forall2_nil_inv_l.
  - destruct (PromptMessageTool_new _ _ _) as [e|pm] eqn:Hnew.
    + split; [done|]. intros (pm & k & Hpm & _ & _)%Forall2_cons_inv_l.
      congruence.
    + destruct (_init_prompt_mcp_tools rest) as [e|l] eqn:Hrest.
      * split; [done|]. intros (pm' & k & _ & Hk & _)%Forall2_cons_inv_l.
        by apply IH in Hk.
      * split.
        -- intros [= <-]. constructor; [done|]. by apply IH.
        -- intros (pm' & k & Hpm & Hk & ->)%Forall2_cons_inv_l.
           apply IH in Hk. congruence.
Qed.

(** X23.  Converting the dictionary form of an action back: when
    [to_dict] binds "action" to the name and "action_input" to the
    input, and the model accepts these two values as the action, the
    conversion returns the action it came from; keys beside these two
    do not matter. *)
Theorem _convert_dict_to_action_to_dict (a : Action) :
  dict_get (to_dict a) "action" = Some (PStr (action_name a)) →
  dict_get (to_dict a) "action_input" = Some (input_value (action_input a)) →
  Action_new (PStr (action_name a)) (input_value (action_input a)) = inr a →
  _convert_dict_to_action (to_dict a) = inr a.
Proof.
  intros Hname Hinput Hnew. unfold _convert_dict_to_action, dict_getitem.
  by rewrite Hname, Hinput.
Qed.

(** X24.  A dictionary without "action" is refused with KeyError
    'action' whatever else it holds, and one with "action" but without
    "action_input" with KeyError 'action_input'; the validation of the
    model is not reached in either case. *)
Theorem _convert_dict_to_action_missing (action : pydict) :
  (dict_get action "action" = None →
   _convert_dict_to_action action = inl (KeyError "action"))
  ∧ (is_Some (dict_get action "action") →
     dict_get action "action_input" = None →
     _convert_dict_to_action action = inl (KeyError "action_input")).
Proof.
  unfold _convert_dict_to_action, dict_getitem. split.
  - by intros ->.
  - intros [name ->] ->. done.
Qed.

End PromptFacts.

(** ** Stripping *)

Section Stripping.

Lemma strip_prefix_spec (p s r : string) :
  strip_prefix p s = Some r ↔ s = p ++ r.
Proof.
  revert s. induction p as [|a p IH]; intros s.
  - cbn [strip_prefix]. change (EmptyString ++ r) with r. split; congruence.
  - destruct s as [|b s]; cbn [strip_prefix].
    + split; [done|]. intros Hs. discriminate Hs.
    + change (String a p ++ r) with (String a (p ++ r)).
      destruct (Ascii.eqb a b) eqn:Hab.
      * apply Ascii.eqb_eq in Hab as ->. rewrite IH. split; congruence.
      * apply Ascii.eqb_neq in Hab. split; [done|]. congruence.
Qed.

Lemma drop_one_Some (ws : list string) (s r : string) :
  drop_one ws s = Some r → ∃ w, w ∈ ws ∧ s = w ++ r.
Proof.
  induction ws as [|w ws IH]; simpl; [done|].
  destruct (strip_prefix w s) as [r'|] eqn:Hw.
  - intros [= ->]. apply strip_prefix_spec in Hw.
    exists w. split; [by left|done].
  - intros (w' & Hin & Hs)%IH. exists w'. split; [by right|done].
Qed.

Lemma drop_one_None (ws : list string) (s : string) :
  drop_one ws s = None → ∀ w r, w ∈ ws → s ≠ w ++ r.
Proof.
  induction ws as [|w ws IH]; simpl.
  - intros _ w r Hin. by apply elem_of_nil in Hin.
  - destruct (strip_prefix w s) as [r'|] eqn:Hw; [done|].
    intros Hnone w' r [->|Hin]%elem_of_cons.
    + intros Hs. apply strip_prefix_spec in Hs. congruence.
    + by apply IH.
Qed.

Lemma lstrip_with_clean (ws : list string) (fuel : nat) (s : string) :
  Forall (fun w => w ≠ EmptyString) ws →
  (String.length s ≤ fuel)%nat →
  drop_one ws (lstrip_with ws fuel s) = None.
Proof.
  intros Hws. revert s. induction fuel as [|fuel IH]; intros s Hlen; simpl.
  - destruct s; [|simpl in Hlen; lia].
    destruct (drop_one ws EmptyString) as [r|] eqn:Hd; [|done].
    apply drop_one_Some in Hd as (w & Hin & Hs).
    rewrite Forall_forall in Hws. destruct (Hws w Hin). by destruct w.
  - destruct (drop_one ws s) as [r|] eqn:Hd; [|done].
    apply IH. apply drop_one_Some in Hd as (w & Hin & ->).
    rewrite string_app_length in Hlen.
    rewrite Forall_forall in Hws. specialize (Hws w Hin).
    destruct w; [done|]. simpl in Hlen. lia.
Qed.

Lemma lstrip_with_suffix (ws : list string) (fuel : nat) (s : string) :
  ∃ pre, s = pre ++ lstrip_with ws fuel s.
Proof.
  revert s. induction fuel as [|fuel IH]; intros s; simpl.
  - by exists EmptyString.
  - destruct (drop_one ws s) as [r|] eqn:Hd; [|by exists EmptyString].
    apply drop_one_Some in Hd as (w & _ & ->).
    destruct (IH r) as [pre Hpre]. exists (w ++ pre).
    by rewrite string_app_assoc, <- Hpre.
Qed.

Lemma list_ascii_of_string_app (a b : string) :
  list_ascii_of_string (a ++ b)
  = (list_ascii_of_string a ++ list_ascii_of_string b)%list.
Proof.
  induction a as [|c a IH]; [done|].
  change (String c a ++ b) with (String c (a ++ b)). simpl. by rewrite IH.
Qed.

Lemma string_of_list_ascii_app (l1 l2 : list ascii) :
  string_of_list_ascii (l1 ++ l2)
  = string_of_list_ascii l1 ++ string_of_list_ascii l2.
Proof.
  induction l1 as [|c l1 IH]; [done|]. simpl. rewrite IH. done.
Qed.

Lemma string_rev_app (a b : string) :
  string_rev (a ++ b) = string_rev b ++ string_rev a.
Proof.
  unfold string_rev.
  by rewrite list_ascii_of_string_app, rev_app_distr, string_of_list_ascii_app.
Qed.

Lemma string_rev_involutive (s : string) : string_rev (string_rev s) = s.
Proof.
  unfold string_rev.
  by rewrite list_ascii_of_string_of_list_ascii, rev_involutive,
    string_of_list_ascii_of_string.
Qed.

Lemma string_rev_length (s : string) :
  String.length (string_rev s) = String.length s.
Proof.
  assert (Hlen : ∀ l, String.length (string_of_list_ascii l) = length l).
  { induction l as [|c l IH]; simpl; congruence. }
  assert (Hlen' : ∀ t, length (list_ascii_of_string t) = String.length t).
  { induction t as [|c t IH]; simpl; congruence. }
  unfold string_rev. by rewrite Hlen, length_rev, Hlen'.
Qed.

Lemma whitespace_nonempty : Forall (fun w => w ≠ EmptyString) whitespace.
Proof. vm_compute. repeat (constructor; [discriminate|]). constructor. Qed.

(** What [str.strip] returns neither begins nor ends with a whitespace
    character. *)
Lemma strip_unpadded (s : string) :
  ¬ padded_left (strip s) ∧ ¬ padded_right (strip s).
Proof.
  unfold strip, rstrip.
  set (x := lstrip s).
  set (ws' := map string_rev whitespace).
  set (r := lstrip_with ws' (String.length x) (string_rev x)).
  assert (Hx : drop_one whitespace x = None).
  { apply lstrip_with_clean; [apply whitespace_nonempty|done]. }
  assert (Hr : drop_one ws' r = None).
  { apply lstrip_with_clean; [|by rewrite string_rev_length].
    unfold ws'. apply Forall_map. eapply Forall_impl;
      [apply whitespace_nonempty|]. intros w Hw Hrev. apply Hw.
    by rewrite <- (string_rev_involutive w), Hrev. }
  split.
  - intros (w & rest & Hin & Hs).
    destruct (lstrip_with_suffix ws' (String.length x) (string_rev x))
      as [pre Hpre]. fold r in Hpre.
    apply (drop_one_None _ _ Hx w (rest ++ string_rev pre) Hin).
    rewrite <- (string_rev_involutive x), Hpre, string_rev_app, Hs.
    by rewrite string_app_assoc.
  - intros (w & rest & Hin & Hs).
    apply (drop_one_None _ _ Hr (string_rev w) (string_rev rest)).
    + unfold ws'. apply list_elem_of_fmap. by exists w.
    + by rewrite <- (string_rev_involutive r), Hs, string_rev_app.
Qed.

(** X25.  The thought recorded for a round never begins or ends with
    whitespace, whatever the model streamed. *)
Theorem thought_unpadded `{AgentSDK} (chunks : list Chunk) :
  ¬ padded_left (thought (read_chunks chunks))
  ∧ ¬ padded_right (thought (read_chunks chunks)).
Proof.
  unfold read_chunks, settle_thought. simpl.
  destruct (thought (foldl absorb blank_unit chunks)) as [|c t].
  - change "I am thinking about how to help you"
      with (strip "I am thinking about how to help you").
    apply strip_unpadded.
  - apply strip_unpadded.
Qed.

(** X26.  Lines 196-198 keep the messages and their roles and leave no
    content that begins or ends with whitespace. *)
Theorem strip_contents_unpadded (prompt_messages : list PromptMessage) :
  map role (strip_contents prompt_messages) = map role prompt_messages
  ∧ ∀ msg, msg ∈ strip_contents prompt_messages →
      ¬ padded_left (content msg) ∧ ¬ padded_right (content msg).
Proof.
  unfold strip_contents. split.
  - rewrite map_map. done.
  - intros msg (m & -> & _)%list_elem_of_fmap. simpl. apply strip_unpadded.
Qed.

End Stripping.

(** ** The further facts in the sample deployment *)

Lemma local_arguments_override_witness :
  dispatch (act "clock" (InputDict [("precision", PInt 5); ("zone", PStr "UTC")]))
  = ([LocalCall "clock" [("precision", PInt 5); ("zone", PStr "UTC")]],
     inr (PStr "local clock",
          PDict [("precision", PInt 5); ("zone", PStr "UTC")])).
Proof.
  refine (eq_trans
            (proj2 (local_arguments_override (W:=World)
                      (act "clock"
                         (InputDict [("precision", PInt 5);
                                     ("zone", PStr "UTC")]))
                      (Some McpClientsHandle) local_index remote_index clock
                      [("precision", PInt 5); ("zone", PStr "UTC")] []
                      _ _ _ _)) _);
    try (vm_compute; reflexivity).
  apply (bool_decide_unpack _). vm_compute. exact I.
Defined.

Lemma local_scalar_arguments_rejected_witness :
  dispatch (act "clock" (InputStr "5"))
  = ([], inr (PStr "tool invoke error: 'int' object is not a mapping",
              PDict [])).
Proof.
  apply (local_scalar_arguments_rejected (W:=World)
           (act "clock" (InputStr "5")) (Some McpClientsHandle) local_index
           remote_index clock "5" (PInt 5) []);
    try (vm_compute; reflexivity). done.
Defined.

Lemma remote_result_edge_cases_witness :
  dispatch_quirky (act "empty" (InputDict []))
  = ([RemoteCall "empty" (PDict [])], inr (PStr "[]", PDict []))
  ∧ dispatch_quirky (act "untyped" (InputDict []))
    = ([RemoteCall "untyped" (PDict [])],
       inr (PStr "tool invoke error: 'type'", PDict [])).
Proof.
  split.
  - refine (proj1 (remote_result_edge_cases (W:=World) (H0:=quirky)
                     (act "empty" (InputDict [])) McpClientsHandle
                     local_index quirky_index (PDict []) [] []
                     [RemoteCall "empty" (PDict [])] _ _ _) _);
      vm_compute; reflexivity.
  - refine (proj1 (proj2 (remote_result_edge_cases (W:=World) (H0:=quirky)
                     (act "untyped" (InputDict [])) McpClientsHandle
                     local_index quirky_index (PDict [])
                     [[("text", PStr "no type given")]] []
                     [RemoteCall "untyped" (PDict [])] _ _ _))
              [("text", PStr "no type given")] _ _);
      vm_compute; reflexivity.
Defined.

Lemma index_mcp_tools_last_wins_witness :
  remote_index !! "search"
  = Some [("name", PStr "search"); ("description", PStr "remote tool");
          ("inputSchema", PDict [])]
  ↔ ∃ l1 l2,
      remote_tools
      = (l1 ++ [("name", PStr "search"); ("description", PStr "remote tool");
                ("inputSchema", PDict [])] :: l2)%list
      ∧ dict_get [("name", PStr "search"); ("description", PStr "remote tool");
                  ("inputSchema", PDict [])] "name" = Some (PStr "search")
      ∧ ∀ d', d' ∈ l2 → dict_get d' "name" ≠ Some (PStr "search").
Proof.
  apply (index_mcp_tools_last_wins remote_tools remote_index "search").
  vm_compute. reflexivity.
Defined.

Lemma invalid_mcp_config_aborts_witness :
  run [] (params None (Some "Paris") 3)
  = ([], (initial_state [],
          Raised (ValueError
                    ("mcp_servers_config must be a valid JSON string: "
                     ++ "Expecting value: line 1 column 1 (char 0)")))).
Proof.
  apply (invalid_mcp_config_aborts (W:=World) (H2:=scripted [])
           (params None (Some "Paris") 3) "Paris"
           "Expecting value: line 1 column 1 (char 0)" []);
    try (vm_compute; reflexivity). done.
Defined.

Lemma no_mcp_config_no_client_witness :
  ∃ su,
    @setup World decoder sdk (scripted []) (params (Some local_tools) None 3) []
    = ([], inr (su, _init_prompt_tools (Some local_tools)))
    ∧ mcp_clients su = None
    ∧ mcp_tool_instances su = ∅
    ∧ tool_instances su = local_index
    ∧ ∀ w', @close_clients World (scripted []) su w' = (w', inr tt).
Proof.
  apply (no_mcp_config_no_client (W:=World) (H2:=scripted [])
           (params (Some local_tools) None 3) []).
  by left.
Defined.

Lemma terminal_round_calls_no_tool_witness :
  ∃ st',
    first_round [says "That is easy" (Some (act "Final Answer" (InputStr "4")))]
      (params (Some local_tools) None 3)
    = ([ModelCall 0 []], (st', None))
    ∧ dispatched (trace st') = []
    ∧ run_agent_state st' = false.
Proof.
  apply (terminal_round_calls_no_tool (W:=World)
           (H2:=scripted [says "That is easy"
                            (Some (act "Final Answer" (InputStr "4")))])
           (params (Some local_tools) None 3) deployment (initial_state [])
           (says "That is easy" (Some (act "Final Answer" (InputStr "4"))))
           [] [ModelCall 0 []]);
    vm_compute; reflexivity.
Defined.

Lemma direct_answer_witness :
  ∃ st,
    run [says " It is 4 " None] (params (Some [calculator]) None 3)
    = ([ModelCall 0 ["calculator"]], (st, Finished))
    ∧ rounds (trace st) = 1%nat
    ∧ dispatched (trace st) = []
    ∧ final_answer st = "It is 4"
    ∧ ∃ logs,
        yielded st
        = (logs ++ [TextMessage "It is 4";
                    JsonMessage (usage_metadata (llm_usage st))])%list.
Proof.
  eapply (direct_answer (W:=World) (H2:=scripted [says " It is 4 " None])
            (params (Some [calculator]) None 3) [] [] _ _
            (says " It is 4 " None));
    try (vm_compute; reflexivity). simpl. lia.
Defined.

Lemma unknown_tool_round_continues_witness :
  ∃ st',
    first_round [says "Try it" (Some (act "unknown_tool" (InputStr "Paris")))]
      (params (Some local_tools) None 3)
    = ([ModelCall 0 []], (st', None))
    ∧ run_agent_state st' = true
    ∧ iteration_step st' = 2
    ∧ observation <$> last (agent_scratchpad st')
      = Some (PStr "there is not a tool named unknown_tool").
Proof.
  edestruct (unknown_tool_round_continues (W:=World)
               (H2:=scripted [says "Try it"
                      (Some (act "unknown_tool" (InputStr "Paris")))])
               (params (Some local_tools) None 3) deployment (initial_state [])
               (says "Try it" (Some (act "unknown_tool" (InputStr "Paris"))))
               (act "unknown_tool" (InputStr "Paris")) [] [ModelCall 0 []])
    as (st' & Hround & Hrun & Hobs & Hnext);
    try (vm_compute; reflexivity); try (by vm_compute).
  destruct (Hnext eq_refl) as (Hstep & _).
  exists st'. split_and!; done.
Defined.

Lemma model_failure_aborts_witness :
  ∃ st,
    run [] (params (Some [calculator]) None 3)
    = ([ModelCall 0 ["calculator"]],
       (st, Raised (RuntimeError "model unavailable")))
    ∧ yielded st = [LogStart "ROUND 1" None []]
    ∧ agent_scratchpad st = []
    ∧ dispatched (trace st) = [].
Proof.
  eapply (model_failure_aborts (W:=World) (H2:=scripted [])
            (params (Some [calculator]) None 3) [] []);
    try (vm_compute; reflexivity). simpl. lia.
Defined.

Lemma _system_prompt_message_substitutes_witness :
  _system_prompt_message "Be brief." (_init_prompt_tools (Some [calculator; clock]))
  = {| role := "system";
       content :=
         "Respond to the human. " ++ "Be brief."
         ++ " You have access to these tools: "
         ++ json_dumps false
              (PList (map prompt_tool_dump
                        (_init_prompt_tools (Some [calculator; clock]))))
         ++ " Valid action values: Final Answer or " ++ "calculator, clock"
         ++ "." |}.
Proof.
  refine (eq_trans
            (_system_prompt_message_substitutes "Be brief."
               (_init_prompt_tools (Some [calculator; clock]))
               "Respond to the human. " " You have access to these tools: "
               " Valid action values: Final Answer or " "." _ _ _ _ _ _ _) _);
    first [apply occursb_absent; vm_compute; reflexivity
          |vm_compute; reflexivity].
Defined.

Lemma _convert_dict_to_action_to_dict_witness :
  _convert_dict_to_action (to_dict calculate) = inr calculate.
Proof.
  apply (_convert_dict_to_action_to_dict calculate); reflexivity.
Defined.

Lemma stream_failure_aborts_witness :
  ∃ st,
    run [broken_off "I nee"] (params (Some [calculator]) None 3)
    = ([ModelCall 0 ["calculator"]],
       (st, Raised (RuntimeError "connection reset")))
    ∧ yielded st
      = [LogStart "ROUND 1" None [];
         LogStart "gpt Thought" (Some "ROUND 1") [(PROVIDER, MStr "openai")]]
    ∧ agent_scratchpad st = [].
Proof.
  eapply (stream_failure_aborts (W:=World) (H2:=scripted [broken_off "I nee"])
            (params (Some [calculator]) None 3) [] [] _ _ _
            (broken_off "I nee"));
    try (vm_compute; reflexivity). simpl. lia.
Defined.

Lemma earlier_rounds_full_catalogue_witness :
  let r := run [says "I need the calculator" (Some calculate);
                says "It is 4" None]
             (params (Some [calculator; clock]) None 3) in
  (1, _init_prompt_tools (Some [calculator; clock])) ∈ prompts (trace r.2.1)
  ∧ length (_init_prompt_tools (Some [calculator; clock])) = 2%nat.
Proof.
  assert (Hin : (1, _init_prompt_tools (Some [calculator; clock]))
                ∈ prompts
                    (trace (run [says "I need the calculator" (Some calculate);
                                 says "It is 4" None]
                              (params (Some [calculator; clock]) None 3)).2.1)).
  { assert (Hp : prompts
                   (trace (run [says "I need the calculator" (Some calculate);
                                says "It is 4" None]
                             (params (Some [calculator; clock]) None 3)).2.1)
                 = [(1, _init_prompt_tools (Some [calculator; clock]));
                    (2, _init_prompt_tools (Some [calculator; clock]))])
      by (vm_compute; reflexivity).
    rewrite Hp. by left. }
  split; [exact Hin|].
  refine (earlier_rounds_full_catalogue (W:=World)
            (H2:=scripted [says "I need the calculator" (Some calculate);
                           says "It is 4" None])
            (params (Some [calculator; clock]) None 3) [] [] _
            (_init_prompt_tools (Some [calculator; clock])) 1
            (_init_prompt_tools (Some [calculator; clock])) _ Hin _).
  - vm_compute. reflexivity.
  - done.
Defined.

Lemma no_usage_zero_summary_witness :
  last (yielded (run [quiet "It is 4"] (params None None 3)).2.1)
  = Some (JsonMessage [(TOTAL_PRICE, MInt 0);
                       (CURRENCY, MStr EmptyString);
                       (TOTAL_TOKENS, MInt 0)]).
Proof.
  apply (no_usage_zero_summary (W:=World) (H2:=scripted [quiet "It is 4"])
           (params None None 3) []).
  - intros inputs w0 w1 stream Hllm u. revert Hllm. simpl. unfold call.
    destruct (length (prompt_scratchpad inputs)) as [|n]; simpl.
    + by intros [= <- <-].
    + done.
  - vm_compute. reflexivity.
Defined.
